(** * Orc node: protocol handlers, shard server and client calls

    A shallow embedding of [lib/rules.js] (class [Rules]), [lib/node.js]
    (class [Node]) and [lib/server.js] (class [Server]).

    Conventions of the embedding:
    - a node-style callback [(err, value)] is a value of [callback];
    - [Date.now()] and [randomBytes(32)] are read from explicit arguments
      ([now], [rnd]), one argument per call site;
    - the contract store, the shard store and the shard-contract database
      are finite maps with injectable read and write failures;
    - the first call of the final callback of a waterfall sends the
      response; a later call leaves the response as it is, while the
      listeners that make it stay attached and keep their other effects. *)

From stdpp Require Import gmap strings list fin_maps.
From Stdlib Require Import ZArith.
From Stdlib.Strings Require Import Ascii Byte.

Local Open Scope Z_scope.

(** ** Bytes and hexadecimal strings *)

Definition bytes := list byte.

Definition hex_digit (n : N) : Ascii.ascii :=
  match String.get (N.to_nat n) "0123456789abcdef" with
  | Some c => c
  | None => "0"%char
  end.

Definition hex_of_byte (b : byte) : string :=
  String (hex_digit (Byte.to_N b / 16)%N)
    (String (hex_digit (Byte.to_N b mod 16)%N) EmptyString).

(** [buffer.toString('hex')] *)
Fixpoint toString_hex (buf : bytes) : string :=
  match buf with
  | [] => EmptyString
  | b :: rest => hex_of_byte b +:+ toString_hex rest
  end.

(** [randomBytes(32).toString('hex')], [rnd] being the bytes drawn. *)
Definition mint_token (rnd : bytes) : string := toString_hex rnd.

(** ** Errors and callbacks *)

Inductive error : Type :=
  | Error (message : string)           (* new Error(message) *)
  | AssertionError (message : string)  (* thrown by assert *)
  | NotFoundError (key : string)       (* a store has nothing under the key *)
  | UpstreamError (message : string).  (* an error object a store handed
                                          over; handlers pass it on as is *)

Inductive callback (A : Type) : Type :=
  | Err (e : error)
  | Ok (a : A).
Arguments Err {A} e.
Arguments Ok {A} a.

(** What a handler hands to the transport: [response.send(params)] or
    [next(err)]. *)
Inductive outcome (A : Type) : Type :=
  | Reply (params : A)
  | Fail (err : error).
Arguments Reply {A} params.
Arguments Fail {A} err.

(** ** Contacts *)

Record AddressInfo : Type := { xpub : string; index : Z }.

(** [[identity, { xpub, index, ... }]] *)
Definition Contact : Type := (string * AddressInfo)%type.

(** ** Contracts *)

Module Contract.

(** Modelled from the spec: [lib/contract.js] is not among the sources;
    the fields are those of the descriptor table of the data model. *)
Record t : Type := {
  data_hash : string;
  data_size : Z;
  renter_id : string;
  farmer_id : string;
  renter_hd_key : string;
  farmer_hd_key : string;
  renter_hd_index : Z;
  farmer_hd_index : Z;
  renter_signature : option string;
  farmer_signature : option string;
  store_begin : Z;
  store_end : Z;
  audit_leaves : list string;
  payment_destination : string;
  version : Z
}.

Inductive role : Type := renter | farmer.

(** A JSON value on the wire or in the contract store, as far as the
    handlers tell them apart. [toObject] of a contract is [Obj]. *)
#[local] Unset Elimination Schemes.
Inductive value : Type :=
  | Undefined
  | Obj (c : t)
  | Arr (items : list value).
#[local] Set Elimination Schemes.

(** Modelled from the spec: [toObject] gives the descriptor mapping of the
contract. *)
Definition toObject (c : t) : value := Obj c.

(** Modelled from the spec: [contract.set(field, v)] writes one field; these
are the four fields the handlers write. *)
Definition set_payment_destination (v : string) (c : t) : t :=
  {| data_hash := data_hash c; data_size := data_size c;
     renter_id := renter_id c; farmer_id := farmer_id c;
     renter_hd_key := renter_hd_key c; farmer_hd_key := farmer_hd_key c;
     renter_hd_index := renter_hd_index c;
     farmer_hd_index := farmer_hd_index c;
     renter_signature := renter_signature c;
     farmer_signature := farmer_signature c;
     store_begin := store_begin c; store_end := store_end c;
     audit_leaves := audit_leaves c; payment_destination := v;
     version := version c |}.

Definition set_farmer_id (v : string) (c : t) : t :=
  {| data_hash := data_hash c; data_size := data_size c;
     renter_id := renter_id c; farmer_id := v;
     renter_hd_key := renter_hd_key c; farmer_hd_key := farmer_hd_key c;
     renter_hd_index := renter_hd_index c;
     farmer_hd_index := farmer_hd_index c;
     renter_signature := renter_signature c;
     farmer_signature := farmer_signature c;
     store_begin := store_begin c; store_end := store_end c;
     audit_leaves := audit_leaves c;
     payment_destination := payment_destination c;
     version := version c |}.

Definition set_farmer_hd_key (v : string) (c : t) : t :=
  {| data_hash := data_hash c; data_size := data_size c;
     renter_id := renter_id c; farmer_id := farmer_id c;
     renter_hd_key := renter_hd_key c; farmer_hd_key := v;
     renter_hd_index := renter_hd_index c;
     farmer_hd_index := farmer_hd_index c;
     renter_signature := renter_signature c;
     farmer_signature := farmer_signature c;
     store_begin := store_begin c; store_end := store_end c;
     audit_leaves := audit_leaves c;
     payment_destination := payment_destination c;
     version := version c |}.

Definition set_farmer_hd_index (v : Z) (c : t) : t :=
  {| data_hash := data_hash c; data_size := data_size c;
     renter_id := renter_id c; farmer_id := farmer_id c;
     renter_hd_key := renter_hd_key c; farmer_hd_key := farmer_hd_key c;
     renter_hd_index := renter_hd_index c;
     farmer_hd_index := v;
     renter_signature := renter_signature c;
     farmer_signature := farmer_signature c;
     store_begin := store_begin c; store_end := store_end c;
     audit_leaves := audit_leaves c;
     payment_destination := payment_destination c;
     version := version c |}.

(** The operations of the class [Contract] the handlers call. Their code
    is not among the sources, so the handlers are verified for every
    implementation of this interface. *)
Class Lib : Type := {
  from : value -> t;               (* Contract.from(descriptor) *)
  isValid : t -> bool;             (* contract.isValid() *)
  isComplete : t -> bool;          (* contract.isComplete() *)
  sign : role -> bytes -> t -> t;  (* contract.sign(role, privateKey) *)
  diff : t -> t -> list string     (* Contract.diff(a, b) *)
}.

End Contract.

(** [const [descriptor] = request.params] *)
Definition first_param (params : list Contract.value) : Contract.value :=
  default Contract.Undefined (head params).

(** ** Stores *)

(** A levelup-compatible key-value store: the entries it holds, and the
    failure (its message), if any, with which it answers reads and
    writes. *)
Record store (V : Type) : Type := {
  entries : gmap string V;
  get_fault : option string;
  put_fault : option string
}.
Arguments entries {V} _.
Arguments get_fault {V} _.
Arguments put_fault {V} _.

(** [db.get(key, (err, value) => ...)] *)
Definition store_get {V} (key : string) (db : store V) : callback V :=
  match get_fault db with
  | Some e => Err (UpstreamError e)
  | None =>
      match entries db !! key with
      | Some v => Ok v
      | None => Err (NotFoundError key)
      end
  end.

(** [db.put(key, value, (err) => ...)] *)
Definition store_put {V} (key : string) (v : V) (db : store V)
  : option error * store V :=
  match put_fault db with
  | Some e => (Some (UpstreamError e), db)
  | None =>
      (None, {| entries := <[key := v]> (entries db);
                get_fault := get_fault db; put_fault := put_fault db |})
  end.

(** [db.del(key, () => ...)], the outcome of which no caller looks at *)
Definition store_del {V} (key : string) (db : store V) : store V :=
  match put_fault db with
  | Some _ => db
  | None =>
      {| entries := delete key (entries db);
         get_fault := get_fault db; put_fault := put_fault db |}
  end.

(** [db.createReadStream()]: the entries the stream emits as ['data'], and
    the ['error'] it emits after them, if any (['end'] otherwise).
    [emitted] tells, by their keys, which entries a stream that fails has
    emitted before its ['error']. *)
Definition store_createReadStream {V} (emitted : string -> bool)
    (db : store V) : list (string * V) * option error :=
  match get_fault db with
  | Some e =>
      (filter (fun kv : string * V => emitted kv.1 = true)
         (map_to_list (entries db)),
       Some (UpstreamError e))
  | None => (map_to_list (entries db), None)
  end.

Module Shards.

(** Modelled from the spec: the shard store is an external collaborator
    with [exists], [createReadStream], [createWriteStream] and [unlink];
    a read stream delivers the stored bytes and ends. *)
Record t : Type := {
  blobs : gmap string bytes;
  read_fault : option string;
  write_fault : option string
}.

Definition with_blobs (b : gmap string bytes) (s : t) : t :=
  {| blobs := b; read_fault := read_fault s; write_fault := write_fault s |}.

(** [shards.exists(hash, (err, exists) => ...)] *)
Definition exists_ (hash : string) (s : t) : callback bool :=
  match read_fault s with
  | Some e => Err (UpstreamError e)
  | None => Ok (bool_decide (is_Some (blobs s !! hash)))
  end.

(** [shards.createReadStream(hash, (err, stream) => ...)] *)
Definition createReadStream (hash : string) (s : t) : callback bytes :=
  match read_fault s with
  | Some e => Err (UpstreamError e)
  | None =>
      match blobs s !! hash with
      | Some data => Ok data
      | None => Err (NotFoundError hash)
      end
  end.

(** [shards.createWriteStream(hash, (err, stream) => ...)] *)
Definition createWriteStream (hash : string) (s : t) : callback t :=
  match write_fault s with
  | Some e => Err (UpstreamError e)
  | None => Ok (with_blobs (<[hash := []]> (blobs s)) s)
  end.

(** [writeStream.write(chunk)] on the stream opened for [hash] *)
Definition write (hash : string) (chunk : bytes) (s : t) : t :=
  with_blobs (<[hash := default [] (blobs s !! hash) ++ chunk]> (blobs s)) s.

(** [shards.unlink(hash, () => null)] *)
Definition unlink (hash : string) (s : t) : t :=
  with_blobs (delete hash (blobs s)) s.

(** [shards.unlink(hash, (err) => ...)] where the caller looks at [err] *)
Definition unlink_checked (hash : string) (s : t) : option error * t :=
  match write_fault s with
  | Some e => (Some (UpstreamError e), s)
  | None => (None, unlink hash s)
  end.

End Shards.

(** Digests of [crypto.createHash]. *)
Class Hashes : Type := {
  sha256 : bytes -> bytes;
  rmd160 : bytes -> bytes
}.

(** ** Utilities ([lib/utils.js]) *)

Module Utils.

(** A character of the class [[0-9a-fA-F]]. *)
Definition is_hexa (c : ascii) : bool :=
  let n := N_of_ascii c in
  ((48 <=? n) && (n <=? 57) || (97 <=? n) && (n <=? 102) ||
   (65 <=? n) && (n <=? 70))%N.

Fixpoint every (p : ascii -> bool) (s : string) : bool :=
  match s with
  | EmptyString => true
  | String c rest => p c && every p rest
  end.

(** [isHexaString(a)], for a string: [/^[0-9a-fA-F]+$/.test(a)] *)
Definition isHexaString (a : string) : bool :=
  negb (String.eqb a "") && every is_hexa a.

(** The object [params] of [getErasureParameters]; [length] and [size] are
    getters over it and [n]. *)
Record params : Type := {
  shards : Z;
  parity : Z;
  padding : Z
}.

(** [get length()] *)
Definition length_ (n : Z) (p : params) : Z := n + padding p.

Definition MAX_SAFE_INTEGER : Z := 2 ^ 53 - 1.

(** [Number.isSafeInteger(params.size)], where [params.size] is
    [params.length / params.shards]: the quotient is an integer of
    magnitude at most [2^53 - 1]. [n] is an integer here. *)
Definition size_isSafeInteger (n : Z) (p : params) : bool :=
  (length_ n p mod shards p =? 0) &&
  (Z.abs (length_ n p / shards p) <=? MAX_SAFE_INTEGER).

(** [while (!Number.isSafeInteger(params.size)) { params.padding++; }],
    with [fuel] bounding the number of rounds. *)
Fixpoint pad (fuel : nat) (n : Z) (p : params) : option params :=
  match fuel with
  | O => None
  | S fuel =>
      if size_isSafeInteger n p then Some p
      else pad fuel n {| shards := shards p; parity := parity p;
                         padding := padding p + 1 |}
  end.

(** [function accumulate()], with [fuel] bounding the depth of the
    recursion and the rounds of each loop. *)
Fixpoint accumulate (fuel : nat) (n size : Z) (p : params) : option params :=
  match fuel with
  | O => None
  | S fuel' =>
      if (size <? n) && negb (shards p =? 16) && negb (parity p =? 8) then
        let size := size * 8 in
        let p := {| shards := shards p * 2; parity := parity p * 2;
                    padding := padding p |} in
        match pad fuel n p with
        | None => None
        | Some p => accumulate fuel' n size p
        end
      else Some p
  end.

(** [getErasureParameters(n)] *)
Definition getErasureParameters (fuel : nat) (n : Z) : option params :=
  accumulate fuel n (8 * (1024 * 1024))
    {| shards := 2; parity := 1; padding := 0 |}.

End Utils.

(** ** The shard server ([lib/server.js]) *)

Module Server.

(** The record [accept] stores under a token. *)
Record entry : Type := {
  hash : string;
  contact : Contact;
  expires : Z
}.

(** Modelled from the spec: the documents of [database.ShardContract]
    (the database adapter is not among the sources); [upload] reads their
    [shardSize] and finds them by [shardHash]. *)
Record ShardContract : Type := {
  shardHash : string;
  shardSize : Z
}.

(** The fields of a [Server] that are its own. [this.shards] and
    [this.database] are references to stores the node holds too, so the
    methods take and return those stores explicitly. *)
Record t : Type := {
  _allowed : gmap string entry;
  _ttl : Z
}.

(** [static get DEFAULTS()] *)
Definition DEFAULTS_tokenTtl : Z := 1800000.

(** [accept(token, filehash, contact)]; both [typeof ... === 'string']
    assertions hold by typing. *)
Definition accept (now : Z) (token filehash : string) (c : Contact) (srv : t)
  : t :=
  {| _allowed :=
       <[token := {| hash := filehash; contact := c;
                     expires := now + _ttl srv |}]> (_allowed srv);
     _ttl := _ttl srv |}.

(** [reject(token)] *)
Definition reject (token : string) (srv : t) : t :=
  {| _allowed := delete token (_allowed srv); _ttl := _ttl srv |}.

(** JavaScript truthiness of a string. *)
Definition truthy (s : string) : bool := negb (String.eqb s "").

(** [authorize(token, hash)]: [Err] is the thrown assertion, [token] is
    [None] when the query carries none. *)
Definition authorize (now : Z) (token : option string) (h : string)
    (srv : t) : callback entry :=
  match token with
  | None => Err (AssertionError "You did not supply a token")
  | Some tok =>
      if negb (truthy tok) then
        Err (AssertionError "You did not supply a token")
      else
        match _allowed srv !! tok with
        | None => Err (AssertionError "The token is not accepted")
        | Some e =>
            if negb (truthy h) then
              Err (AssertionError "You did not supply the data hash")
            else if negb (bool_decide (now < expires e)) then
              Err (AssertionError "Token expired")
            else if negb (String.eqb (hash e) h) then
              Err (AssertionError "Token not valid")
            else Ok e
        end
  end.

(** [_reapExpiredTokens()] *)
Definition _reapExpiredTokens (now : Z) (srv : t) : t :=
  {| _allowed := filter (fun kv => ~ (expires kv.2 < now)) (_allowed srv);
     _ttl := _ttl srv |}.

(** What a request does to the outside, in order. *)
Inductive event : Type :=
  | write (h : string) (chunk : bytes)        (* writeStream.write(chunk) *)
  | unlink (h : string)                       (* shards.unlink(hash, ...) *)
  | end_write (h : string)                    (* writeStream.end() *)
  | emit_shardUploaded (c : ShardContract)
  | emit_shardDownloaded (h : string)
  | setHeader_octet_stream
  | pipe (data : bytes)                       (* readStream.pipe(res) *)
  | end_response                              (* res.end() on stream error *)
  | respond (statusCode : Z) (err : option error).

Record request : Type := {
  query_token : option string;
  params_hash : string;
  body : list bytes
}.

(** A request in progress or finished: the events so far, the token table
    and the shard store. *)
Record run : Type := {
  trace : list event;
  server : t;
  shards : Shards.t
}.

Definition log (ev : list event) (r : run) : run :=
  {| trace := trace r ++ ev; server := server r; shards := shards r |}.

Definition is_respond (ev : event) : bool :=
  match ev with
  | respond _ _ => true
  | _ => false
  end.

(** The status of the latest response among the events [tr], after a
    latest status [st] before them. *)
Definition answered (st : option Z) (tr : list event) : option Z :=
  foldl (fun st ev =>
           match ev with
           | respond code _ => Some code
           | _ => st
           end) st tr.

(** The status of the response, once [respond] was called. *)
Definition status (r : run) : option Z := answered None (trace r).

(** The final callback of a waterfall, [respond]: its first call sends
    the response; when the response was sent already, a further call
    sends nothing. *)
Definition final (responded : bool) (statusCode : Z) (err : option error)
  : list event :=
  if responded then [] else [respond statusCode err].

(** [database.ShardContract.findOne({ shardHash: hash }, (err, doc) => ...)] *)
Definition findOne (h : string) (db : store ShardContract)
  : callback (option ShardContract) :=
  match get_fault db with
  | Some e => Err (UpstreamError e)
  | None => Ok (entries db !! h)
  end.

Section Upload.
Context `{Hashes}.

(** The third task of the waterfall of [upload]: the ['data'] events,
    one per chunk, then ['end']. Both listeners stay attached when the
    byte count has exceeded the size and the response was sent:
    [responded] tells whether it was. *)
Fixpoint receive (token : string) (contract : ShardContract) (h : string)
    (shardSize : Z) (chunks : list bytes) (receivedBytes : Z)
    (hasher : bytes) (responded : bool) (r : run) : run :=
  match chunks with
  | chunk :: rest =>
      let receivedBytes := receivedBytes + Z.of_nat (length chunk) in
      let hasher := hasher ++ chunk in
      let r := {| trace := trace r ++ [write h chunk];
                  server := server r;
                  shards := Shards.write h chunk (shards r) |} in
      if bool_decide (shardSize < receivedBytes) then
        receive token contract h shardSize rest receivedBytes hasher true
          {| trace := trace r ++
               unlink h ::
               final responded 400
                 (Some (Error "Shard exceeds size defined in contract"));
             server := server r;
             shards := Shards.unlink h (shards r) |}
      else
        receive token contract h shardSize rest receivedBytes hasher
          responded r
  | [] =>
      if negb (String.eqb (toString_hex (rmd160 (sha256 hasher))) h) then
        {| trace := trace r ++
             unlink h ::
             final responded 400
               (Some (Error "Hash does not match contract"));
           server := server r;
           shards := Shards.unlink h (shards r) |}
      else
        {| trace := trace r ++
             [end_write h; emit_shardUploaded contract] ++
             final responded 200 None;
           server := reject token (server r);
           shards := shards r |}
  end.

(** [upload(req, res)] *)
Definition upload (now : Z) (req : request) (database : store ShardContract)
    (r : run) : run :=
  match authorize now (query_token req) (params_hash req) (server r) with
  | Err e => log [respond 401 (Some e)] r
  | Ok e =>
      (* [hash] is read from [_allowed.get(req.query.token)], the entry
         [authorize] has just returned *)
      let h := hash e in
      match findOne h database with
      | Err err => log [respond 404 (Some err)] r
      | Ok None => log [respond 404 (Some (Error "Not found"))] r
      | Ok (Some contract) =>
          let shardSize := shardSize contract in
          match Shards.createWriteStream h (shards r) with
          | Err err => log [respond 500 (Some err)] r
          | Ok sh =>
              (* [req.query.token] is a string: [authorize] passed *)
              receive (default "" (query_token req)) contract h shardSize
                (body req) 0 [] false
                {| trace := trace r; server := server r; shards := sh |}
          end
      end
  end.

End Upload.

(** How the read stream of a download finishes: it reaches ['end'], or
    it emits ['error'] after having delivered some bytes. *)
Inductive stream_end : Type :=
  | ended
  | errored (delivered : bytes).

(** [download(req, res)] *)
Definition download (now : Z) (req : request) (fin : stream_end)
    (r : run) : run :=
  match authorize now (query_token req) (params_hash req) (server r) with
  | Err e => log [respond 401 (Some e)] r
  | Ok e =>
      let h := hash e in
      match Shards.createReadStream h (shards r) with
      | Err err => log [respond 404 (Some err)] r
      | Ok data =>
          match fin with
          | errored delivered =>
              log [setHeader_octet_stream; pipe delivered; end_response] r
          | ended =>
              {| trace := trace r ++
                   [setHeader_octet_stream; pipe data;
                    emit_shardDownloaded h];
                 server := reject (default "" (query_token req)) (server r);
                 shards := shards r |}
          end
      end
  end.

End Server.

(** ** The node ([lib/node.js]) *)

(** [`${hash}:${xpub}`] *)
Definition contract_key (hash xpub : string) : string :=
  hash +:+ ":" +:+ xpub.

Module Node.

(** Modelled from the spec: an [OfferStream] is built from the owning
    contract and the options [maxOffers] and [farmerBlacklist]
    ([lib/offers.js] is not among the sources); the handlers only look
    it up in the registry and queue offers on it. *)
Record OfferStream : Type := {
  owner : Contract.t;
  maxOffers : Z;
  farmerBlacklist : list string
}.

(** The state of a [Node] the handlers and client calls work on. *)
Record t : Type := {
  identity : string;                    (* this.identity.toString('hex') *)
  contact : AddressInfo;                (* this.contact *)
  privateKey : bytes;                   (* this.spartacus.privateKey *)
  offers : gmap string OfferStream;     (* this.offers = new Map() *)
  contracts : store Contract.value;     (* this.contracts *)
  shards : Shards.t;                    (* this.shards *)
  server : Server.t;                    (* this.server *)
  claims : list string                  (* this.claims *)
}.

Definition with_contracts (db : store Contract.value) (node : t) : t :=
  {| identity := identity node; contact := contact node;
     privateKey := privateKey node; offers := offers node;
     contracts := db; shards := shards node; server := server node;
     claims := claims node |}.

Definition with_server (srv : Server.t) (node : t) : t :=
  {| identity := identity node; contact := contact node;
     privateKey := privateKey node; offers := offers node;
     contracts := contracts node; shards := shards node; server := srv;
     claims := claims node |}.

Definition with_claims (l : list string) (node : t) : t :=
  {| identity := identity node; contact := contact node;
     privateKey := privateKey node; offers := offers node;
     contracts := contracts node; shards := shards node;
     server := server node; claims := l |}.

Definition with_offers (o : gmap string OfferStream) (node : t) : t :=
  {| identity := identity node; contact := contact node;
     privateKey := privateKey node; offers := o;
     contracts := contracts node; shards := shards node;
     server := server node; claims := claims node |}.

Definition with_shards (sh : Shards.t) (node : t) : t :=
  {| identity := identity node; contact := contact node;
     privateKey := privateKey node; offers := offers node;
     contracts := contracts node; shards := sh;
     server := server node; claims := claims node |}.

(** [static get DEFAULTS()], the [claims] entry *)
Definition DEFAULTS_claims : list string := [].

Section Client.
Context `{Contract.Lib}.

(** [offerShardAllocation(peer, descriptor, callback)]; [reply] is what
    [this.send('OFFER', [descriptor], peer, ...)] calls back with. *)
Definition offerShardAllocation (peer : Contact)
    (reply : callback (list Contract.value)) (node : t)
  : callback Contract.t * t :=
  match reply with
  | Err err => (Err err, node)
  | Ok result =>
      let contract := Contract.from (first_param result) in
      let hash := Contract.data_hash contract in
      let key := contract_key hash (xpub peer.2) in
      if negb (Contract.isValid contract && Contract.isComplete contract)
      then
        (Err (Error "Peer replied with invalid or incomplete contract"),
         node)
      else
        match store_put key (first_param result) (contracts node) with
        | (Some err, db) => (Err err, with_contracts db node)
        | (None, db) => (Ok contract, with_contracts db node)
        end
  end.

(** [requestContractRenewal(peer, descriptor, callback)]; [reply] is what
    [this.send('RENEW', [descriptor], peer, ...)] calls back with. *)
Definition requestContractRenewal (peer : Contact)
    (reply : callback (list Contract.value)) (node : t)
  : callback Contract.t * t :=
  match reply with
  | Err err => (Err err, node)
  | Ok result =>
      let contract := Contract.from (first_param result) in
      let hash := Contract.data_hash contract in
      let key := contract_key hash (xpub peer.2) in
      if negb (Contract.isValid contract && Contract.isComplete contract)
      then
        (Err (Error "Peer replied with invalid or incomplete contract"),
         node)
      else
        match store_put key (Contract.Arr result) (contracts node) with
        | (Some err, db) => (Err err, with_contracts db node)
        | (None, db) => (Ok contract, with_contracts db node)
        end
  end.

(** What [quasarPublish(topicString, contents, { routingKey }, ...)] of
    [publishShardDescriptor] is called with. *)
Record descriptor_publication : Type := {
  topicString : string;
  descriptor_contents : Contract.value * Contact;
  routingKey : string
}.

(** [publishShardDescriptor(contract, options, callback)]. The class
    [OfferStream] and [contract.getTopicString()] are not among the
    sources: [new_OfferStream] is [new OfferStream(contract, options)] for
    the options of the call, and [published] is the error, if any, that
    [quasarPublish] calls back with. *)
Definition publishShardDescriptor (getTopicString : Contract.t -> string)
    (new_OfferStream : Contract.t -> OfferStream)
    (descriptor : Contract.value) (published : option error) (node : t)
  : descriptor_publication * callback OfferStream * t :=
  let contract := Contract.from descriptor in
  let routingKey := Contract.data_hash contract in
  let topicString := getTopicString contract in
  let offerStream := new_OfferStream contract in
  let descriptor := Contract.toObject contract in
  let contents := (descriptor, (identity node, contact node)) in
  let node := with_offers (<[routingKey := offerStream]> (offers node)) node in
  ({| topicString := topicString; descriptor_contents := contents;
      routingKey := routingKey |},
   match published with
   | Some err => Err err
   | None => Ok offerStream
   end,
   node).

(** The listener [publishShardDescriptor] installs on the ['end'],
    ['error'] and ['destroy'] events of the stream it registered under
    [routingKey]: [() => this.offers.delete(routingKey)]. *)
Definition offerStream_closed (routingKey : string) (node : t) : t :=
  with_offers (delete routingKey (offers node)) node.

(** [subscribeShardDescriptor]: the topics subscribed to. *)
Definition subscribeShardDescriptor_topics (descriptorCodes : list string)
  : list string :=
  map (fun code => "0f" +:+ code) descriptorCodes.

End Client.

(** The [data] of a capacity announcement. *)
Record capacity : Type := { available : Z; allocated : Z }.

(** What [quasarPublish(topic, contents, callback)] is called with. *)
Record publication : Type := {
  topic : string;
  contents : capacity * Contact
}.

(** [publishCapacityAnnouncement(descriptorCode, data, callback)] *)
Definition publishCapacityAnnouncement (descriptorCode : string)
    (data : capacity) (node : t) : publication * t :=
  let contents := (data, (identity node, contact node)) in
  let node :=
    with_claims (if bool_decide (0 < available data) then claims node
                 else []) node in
  ({| topic := "0c" +:+ descriptorCode; contents := contents |}, node).

(** [subscribeCapacityAnnouncement]: the topics subscribed to. *)
Definition subscribeCapacityAnnouncement_topics
    (descriptorCodes : list string) : list string :=
  map (fun code => "0c" +:+ code) descriptorCodes.

End Node.

(** ** The handlers ([lib/rules.js]) *)

(** [ProofStream]: fed the bytes of a shard, a stream built from the audit
    leaves and a challenge emits ['finish'], after which [getProofResult()]
    is [Some] proof, or ['error'], which is [None]. Its code is not among
    the sources. *)
Class ProofStream : Type := {
  proof_result : Type;
  prove : list string -> string -> bytes -> option proof_result
}.

Module Rules.

Section Handlers.
Context `{Contract.Lib} `{ProofStream}.

(** *** OFFER *)

(** The handler ends in [next(err)] or in a call of
    [offerStream.queue(request.contact, contract, resolver)]. *)
Inductive offer_outcome : Type :=
  | offer_fail (err : error)
  | offer_queue (shardKey : string) (stream : Node.OfferStream)
      (c : Contact) (contract : Contract.t).

(** [offer(request, response, next)] *)
Definition offer (params : list Contract.value) (c : Contact)
    (node : Node.t) : offer_outcome :=
  let descriptor := first_param params in
  let contract := Contract.from descriptor in
  let shardKey := Contract.data_hash contract in
  let offerStream := Node.offers node !! shardKey in
  if negb (Contract.isValid contract && Contract.isComplete contract) then
    offer_fail (Error "Invalid shard descriptor")
  else
    match offerStream with
    | None => offer_fail (Error "Offers for descriptor are closed")
    | Some stream => offer_queue shardKey stream c contract
    end.

(** The resolver [offer] hands to [queue]. *)
Definition offer_resolver (res : callback Contract.value)
  : outcome (list Contract.value) :=
  match res with
  | Err err => Fail err
  | Ok result => Reply [result]
  end.

(** *** AUDIT *)

Record audit_item : Type := { hash : string; challenge : string }.

Record audit_proof : Type := {
  proof_hash : string;
  proof : option proof_result       (* [None] is [null] *)
}.

(** [request.params] of an AUDIT message *)
Inductive audit_params : Type :=
  | not_an_array
  | batch (audits : list audit_item).

(** The iteratee of [async.mapSeries]: [Some] is what it hands to [done],
    [None] when it never calls [done]. [fin] tells how the read stream of
    the shard under a hash finishes. A stream that emits ['error'] after
    it was opened has no listener for it: the event is thrown by the
    emitter, and the proof stream the shard is piped into is never ended,
    so that it emits neither ['finish'] nor ['error']. *)
Definition audit_one (x : string) (fin : string -> Server.stream_end)
    (node : Node.t) (item : audit_item) : option audit_proof :=
  match store_get (contract_key (hash item) x) (Node.contracts node) with
  | Err _ => Some {| proof_hash := hash item; proof := None |}
  | Ok desc =>
      let contract := Contract.from desc in
      let auditLeaves := Contract.audit_leaves contract in
      match Shards.createReadStream (hash item) (Node.shards node) with
      | Err _ => Some {| proof_hash := hash item; proof := None |}
      | Ok shard =>
          match fin (hash item) with
          | Server.ended =>
              Some {| proof_hash := hash item;
                      proof := prove auditLeaves (challenge item) shard |}
          | Server.errored _ => None
          end
      end
  end.

(** [audit(request, response, next)]; [None] when the handler calls
    neither [response.send] nor [next]: [async.mapSeries] runs the
    iteratee on one item after the other and calls back once every item
    is done. *)
Definition audit (params : audit_params) (c : Contact)
    (fin : string -> Server.stream_end) (node : Node.t)
  : option (outcome (list audit_proof)) :=
  match params with
  | not_an_array => Some (Fail (Error "Invalid audit batch supplied"))
  | batch audits => Reply <$> mapM (audit_one (xpub c.2) fin node) audits
  end.

(** *** CONSIGN *)

(** [consign(request, response, next)]; [now] is the [Date.now()] of
    the handler and [now_accept] the one inside [server.accept]. *)
Definition consign (h : string) (c : Contact) (now now_accept : Z)
    (rnd : bytes) (node : Node.t) : outcome (list string) * Node.t :=
  match store_get (contract_key h (xpub c.2)) (Node.contracts node) with
  | Err err => (Fail err, node)
  | Ok desc =>
      let contract := Contract.from desc in
      let token := mint_token rnd in
      if bool_decide (Contract.store_end contract < now) then
        (Fail (Error "Contract has expired"), node)
      else
        (Reply [token],
         Node.with_server
           (Server.accept now_accept token h c (Node.server node)) node)
  end.

(** *** RETRIEVE *)

(** [retrieve(request, response, next)] *)
Definition retrieve (h : string) (c : Contact) (now_accept : Z)
    (rnd : bytes) (node : Node.t) : outcome (list string) * Node.t :=
  match store_get (contract_key h (xpub c.2)) (Node.contracts node) with
  | Err err => (Fail err, node)
  | Ok _ =>
      let token := mint_token rnd in
      match Shards.exists_ h (Node.shards node) with
      | Err err => (Fail err, node)
      | Ok false => (Fail (Error "Shard not found"), node)
      | Ok true =>
          (Reply [token],
           Node.with_server
             (Server.accept now_accept token h c (Node.server node)) node)
      end
  end.

(** *** MIRROR *)

(** What the stream of [utils.createShardUploader(target, hash, token)]
    comes back with once the shard was piped into it: a ['response'] with
    its status and, at its ['end'], its body; an ['error']; or neither. *)
Inductive upload_result : Type :=
  | uploaded (statusCode : Z) (result : string)
  | upload_error (err : error)
  | no_response.

(** [mirror(request, response, next)]; [None] when the handler calls
    neither [response.send] nor [next]. *)
Definition mirror (h token : string) (target c : Contact)
    (uploader : Contact -> string -> string -> bytes -> upload_result)
    (node : Node.t) : option (outcome (list string)) :=
  match store_get (contract_key h (xpub c.2)) (Node.contracts node) with
  | Err err => Some (Fail err)
  | Ok _ =>
      match Shards.createReadStream h (Node.shards node) with
      | Err err => Some (Fail err)
      | Ok shardStream =>
          match uploader target h token shardStream with
          | uploaded statusCode result =>
              if negb (statusCode =? 200) then Some (Fail (Error result))
              else Some (Reply [result])
          | upload_error err => Some (Fail err)
          | no_response => None
          end
      end
  end.

(** *** RENEW *)

Definition allowed : list string :=
  ["renter_id"; "renter_hd_key"; "renter_signature";
   "store_begin"; "store_end"; "audit_leaves"].

(** The loop [for (let prop of difference)]: the first property that
    [allowed] does not include, if any. *)
Fixpoint rejected (difference : list string) : option string :=
  match difference with
  | [] => None
  | prop :: rest =>
      if negb (bool_decide (prop ∈ allowed)) then Some prop
      else rejected rest
  end.

(** [renew(request, response, next)] *)
Definition renew (params : list Contract.value) (c : Contact)
    (node : Node.t) : outcome (list Contract.value) * Node.t :=
  let descriptor := first_param params in
  let renewal := Contract.from descriptor in
  let h := Contract.data_hash renewal in
  let key := contract_key h (xpub c.2) in
  if negb (Contract.isValid renewal && Contract.isComplete renewal) then
    (Fail (Error "Descriptor is invalid or incomplete"), node)
  else
    match store_get key (Node.contracts node) with
    | Err err => (Fail err, node)
    | Ok desc =>
        let original := Contract.from desc in
        let difference := Contract.diff original renewal in
        match rejected difference with
        | Some prop =>
            (Fail (Error ("Rejecting renewal of " +:+ prop)), node)
        | None =>
            let renewal :=
              Contract.sign Contract.farmer (Node.privateKey node)
                renewal in
            match store_put key (Contract.toObject renewal)
                    (Node.contracts node) with
            | (Some err, db) => (Fail err, Node.with_contracts db node)
            | (None, db) =>
                (Reply [Contract.toObject renewal],
                 Node.with_contracts db node)
            end
        end
    end.

(** *** CLAIM *)

(** The reply [[contract.toObject(), token]] *)
Definition claim_reply : Type := (Contract.value * string)%type.

(** [claim(request, response, next)] *)
Definition claim (params : list Contract.value) (c : Contact)
    (now_accept : Z) (rnd : bytes) (node : Node.t)
  : outcome claim_reply * Node.t :=
  let descriptor := first_param params in
  let contract := Contract.from descriptor in
  let x := Contract.renter_hd_key contract in
  let h := Contract.data_hash contract in
  if negb (bool_decide (x ∈ Node.claims node)) &&
     negb (bool_decide ("*" ∈ Node.claims node)) then
    (Fail (Error "Currently rejecting claims"), node)
  else
    let contract := Contract.set_payment_destination "?" contract in
    let contract := Contract.set_farmer_id (Node.identity node) contract in
    let contract :=
      Contract.set_farmer_hd_key (xpub (Node.contact node)) contract in
    let contract :=
      Contract.set_farmer_hd_index (index (Node.contact node)) contract in
    let contract :=
      Contract.sign Contract.farmer (Node.privateKey node) contract in
    if negb (Contract.isValid contract && Contract.isComplete contract)
    then (Fail (Error "Invalid shard descriptor"), node)
    else
      match store_put (contract_key h x) (Contract.toObject contract)
              (Node.contracts node) with
      | (Some err, db) => (Fail err, Node.with_contracts db node)
      | (None, db) =>
          let token := mint_token rnd in
          let node := Node.with_contracts db node in
          (Reply (Contract.toObject contract, token),
           Node.with_server
             (Server.accept now_accept token h c (Node.server node)) node)
      end.

End Handlers.

End Rules.

(** ** The farmer profile ([lib/profiles.js]) *)

Module Profiles.

(** [ms('24h')] *)
Definition ms_24h : Z := 86400000.

(** [announceCapacity(callback)]; [size] is what [this.node.shards.size]
    calls back with, [topics] is [config.FarmerAdvertiseTopics]. The
    outcome of each publication is only logged. *)
Definition announceCapacity (topics : list string)
    (size : callback Node.capacity) (node : Node.t)
  : list Node.publication * Node.t :=
  match size with
  | Err _ => ([], node)
  | Ok data =>
      foldl (fun acc topic =>
               let '(pub, node) :=
                 Node.publishCapacityAnnouncement topic data acc.2 in
               (acc.1 ++ [pub], node))
            ([], node) topics
  end.

Section Reaper.
Context `{Contract.Lib}.

(** The ['data'] listener of [reapExpiredShards] for one entry of the
    contract store. *)
Definition reap_entry (time : Z) (node : Node.t)
    (entry : string * Contract.value) : Node.t :=
  let '(key, value) := entry in
  let contract := Contract.from value in
  if bool_decide (Contract.store_end contract < time + ms_24h) then
    match Shards.unlink_checked (Contract.data_hash contract)
            (Node.shards node) with
    | (Some _, _) => node
    | (None, sh) =>
        Node.with_contracts (store_del key (Node.contracts node))
          (Node.with_shards sh node)
    end
  else node.

(** [reapExpiredShards(callback)]: the error handed to the callback, if
    any, and the node afterwards. The ['data'] listener has handled every
    entry the read stream emitted before its ['end'] or ['error']. *)
Definition reapExpiredShards (emitted : string -> bool) (time : Z)
    (node : Node.t)
  : option error * Node.t :=
  let '(rs, err) := store_createReadStream emitted (Node.contracts node) in
  (err, foldl (reap_entry time) node rs).

End Reaper.

End Profiles.

(** ** A small implementation of the interfaces, to run the code on examples *)

Module Fixture.

Import Contract.

Definition blank : Contract.t :=
  {| data_hash := ""; data_size := 0; renter_id := ""; farmer_id := "";
     renter_hd_key := ""; farmer_hd_key := ""; renter_hd_index := 0;
     farmer_hd_index := 0; renter_signature := None;
     farmer_signature := None; store_begin := 0; store_end := 0;
     audit_leaves := []; payment_destination := ""; version := 0 |}.

(** Modelled from the spec: [Contract.from] never throws; a value that is
    no descriptor gives a contract that is not valid. *)
Definition from (v : value) : Contract.t :=
  match v with
  | Obj c => c
  | _ => blank
  end.

(** Modelled from the spec: a valid contract has a content address and a
    window with [store_end > store_begin] (signatures are not checked
    here). *)
Definition isValid (c : Contract.t) : bool :=
  negb (String.eqb (data_hash c) "") &&
  bool_decide (store_begin c < store_end c).

(** Modelled from the spec: complete means both signatures present. *)
Definition isComplete (c : Contract.t) : bool :=
  bool_decide (is_Some (renter_signature c)) &&
  bool_decide (is_Some (farmer_signature c)).

(** Modelled from the spec: [sign] writes the signature field of the
    role; the signature is a stand-in derived from the key. *)
Definition sign (r : role) (key : bytes) (c : Contract.t) : Contract.t :=
  let sig := Some (toString_hex key) in
  {| data_hash := data_hash c; data_size := data_size c;
     renter_id := renter_id c; farmer_id := farmer_id c;
     renter_hd_key := renter_hd_key c; farmer_hd_key := farmer_hd_key c;
     renter_hd_index := renter_hd_index c;
     farmer_hd_index := farmer_hd_index c;
     renter_signature :=
       match r with renter => sig | farmer => renter_signature c end;
     farmer_signature :=
       match r with farmer => sig | renter => farmer_signature c end;
     store_begin := store_begin c; store_end := store_end c;
     audit_leaves := audit_leaves c;
     payment_destination := payment_destination c;
     version := version c |}.

Definition differs {A} `{EqDecision A} (name : string) (x y : A)
  : list string :=
  if decide (x = y) then [] else [name].

(** Modelled from the spec: [diff(a, b)] is the names of the fields whose
    values differ, here in the order of the descriptor table. *)
Definition diff (a b : Contract.t) : list string :=
  differs "data_hash" (data_hash a) (data_hash b) ++
  differs "data_size" (data_size a) (data_size b) ++
  differs "renter_id" (renter_id a) (renter_id b) ++
  differs "farmer_id" (farmer_id a) (farmer_id b) ++
  differs "renter_hd_key" (renter_hd_key a) (renter_hd_key b) ++
  differs "farmer_hd_key" (farmer_hd_key a) (farmer_hd_key b) ++
  differs "renter_hd_index" (renter_hd_index a) (renter_hd_index b) ++
  differs "farmer_hd_index" (farmer_hd_index a) (farmer_hd_index b) ++
  differs "renter_signature" (renter_signature a) (renter_signature b) ++
  differs "farmer_signature" (farmer_signature a) (farmer_signature b) ++
  differs "store_begin" (store_begin a) (store_begin b) ++
  differs "store_end" (store_end a) (store_end b) ++
  differs "audit_leaves" (audit_leaves a) (audit_leaves b) ++
  differs "payment_destination" (payment_destination a)
    (payment_destination b) ++
  differs "version" (version a) (version b).

Definition lib : Contract.Lib :=
  {| Contract.from := from; Contract.isValid := isValid;
     Contract.isComplete := isComplete; Contract.sign := sign;
     Contract.diff := diff |}.

(** Stand-ins for the digests: the examples below do not depend on what
    the digests compute. *)
Definition hashes : Hashes := {| sha256 := fun b => b; rmd160 := fun b => b |}.

(** A stand-in prover: the proof is the leaf named by challenge and shard,
    when the audit leaves hold it. *)
Definition proofs : ProofStream :=
  {| proof_result := string;
     prove := fun leaves ch shard =>
       let leaf := ch +:+ toString_hex shard in
       if bool_decide (leaf ∈ leaves) then Some leaf else None |}.

Definition renter_contact : Contact :=
  ("renter", {| xpub := "xpubR"; index := 1 |}).

Definition farmer_contact : Contact :=
  ("farmer", {| xpub := "xpubF"; index := 2 |}).

(** A contract signed by both parties for the shard ["6869"]. *)
Definition c1 : Contract.t :=
  {| data_hash := "6869"; data_size := 2; renter_id := "renter";
     farmer_id := "farmer"; renter_hd_key := "xpubR";
     farmer_hd_key := "xpubF"; renter_hd_index := 1; farmer_hd_index := 2;
     renter_signature := Some "aa"; farmer_signature := Some "bb";
     store_begin := 10; store_end := 1000; audit_leaves := ["c06869"];
     payment_destination := "dest"; version := 1 |}.

(** [c1] with another farmer key. *)
Definition c2 : Contract.t := Contract.set_farmer_hd_key "xpubG" c1.

(** The shard ["hi"], whose stand-in content address is ["6869"]. *)
Definition shard : bytes := ["h"%byte; "i"%byte].

Definition empty_store {V} : store V :=
  {| entries := ∅; get_fault := None; put_fault := None |}.

Definition store_of {V} (m : gmap string V) : store V :=
  {| entries := m; get_fault := None; put_fault := None |}.

Definition read_only {V} (m : gmap string V) : store V :=
  {| entries := m; get_fault := None; put_fault := Some "Failed to write" |}.

Definition disk (m : gmap string bytes) : Shards.t :=
  {| Shards.blobs := m; Shards.read_fault := None;
     Shards.write_fault := None |}.

Definition full_disk : Shards.t :=
  {| Shards.blobs := ∅; Shards.read_fault := None;
     Shards.write_fault := Some "ENOSPC" |}.

Definition server0 : Server.t :=
  {| Server._allowed := ∅; Server._ttl := Server.DEFAULTS_tokenTtl |}.

(** A farmer holding [c1] for the renter, and the shard. *)
Definition node0 : Node.t :=
  {| Node.identity := "farmer";
     Node.contact := {| xpub := "xpubF"; index := 2 |};
     Node.privateKey := ["k"%byte];
     Node.offers := ∅;
     Node.contracts := store_of {[ "6869:xpubR" := Obj c1 ]};
     Node.shards := disk {[ "6869" := shard ]};
     Node.server := server0;
     Node.claims := ["xpubR"] |}.

(** [c1] renewed until a later [store_end]. *)
Definition c3 : Contract.t :=
  {| data_hash := "6869"; data_size := 2; renter_id := "renter";
     farmer_id := "farmer"; renter_hd_key := "xpubR";
     farmer_hd_key := "xpubF"; renter_hd_index := 1; farmer_hd_index := 2;
     renter_signature := Some "aa"; farmer_signature := Some "bb";
     store_begin := 10; store_end := 2000; audit_leaves := ["c06869"];
     payment_destination := "dest"; version := 1 |}.

(** [node0] with a contract store that refuses writes. *)
Definition node_read_only : Node.t :=
  Node.with_contracts (read_only {[ "6869:xpubR" := Obj c1 ]}) node0.

(** The renter of [c1], holding nothing yet. *)
Definition renter_node : Node.t :=
  {| Node.identity := "renter";
     Node.contact := {| xpub := "xpubR"; index := 1 |};
     Node.privateKey := ["r"%byte];
     Node.offers := ∅;
     Node.contracts := empty_store;
     Node.shards := disk ∅;
     Node.server := server0;
     Node.claims := Node.DEFAULTS_claims |}.

(** [c1] before the farmer signed it. *)
Definition unsigned : Contract.t :=
  {| data_hash := "6869"; data_size := 2; renter_id := "renter";
     farmer_id := "farmer"; renter_hd_key := "xpubR";
     farmer_hd_key := "xpubF"; renter_hd_index := 1; farmer_hd_index := 2;
     renter_signature := Some "aa"; farmer_signature := None;
     store_begin := 10; store_end := 1000; audit_leaves := ["c06869"];
     payment_destination := "dest"; version := 1 |}.

Definition stream0 : Node.OfferStream :=
  {| Node.owner := unsigned; Node.maxOffers := 1;
     Node.farmerBlacklist := [] |}.

(** The renter after it published the descriptor of the shard. *)
Definition publisher_node : Node.t :=
  {| Node.identity := "renter";
     Node.contact := {| xpub := "xpubR"; index := 1 |};
     Node.privateKey := ["r"%byte];
     Node.offers := {[ "6869" := stream0 ]};
     Node.contracts := empty_store;
     Node.shards := disk ∅;
     Node.server := server0;
     Node.claims := [] |}.

Definition audits0 : list Rules.audit_item :=
  [ {| Rules.hash := "6869"; Rules.challenge := "c0" |};
    {| Rules.hash := "dead"; Rules.challenge := "c0" |} ].

(** The read stream of the shard ["6869"] emits ['error'] after its first
    byte. *)
Definition stream_breaks : string -> Server.stream_end :=
  fun h =>
    if String.eqb h "6869" then Server.errored [Byte.x68] else Server.ended.

Definition database0 : store Server.ShardContract :=
  store_of {[ "6869" := {| Server.shardHash := "6869";
                           Server.shardSize := 2 |} ]}.


(** A server that accepted the token ["t"] for the shard at time 0. *)
Definition server1 : Server.t :=
  Server.accept 0 "t" "6869" renter_contact server0.

Definition run_on (srv : Server.t) (sh : Shards.t) : Server.run :=
  {| Server.trace := []; Server.server := srv; Server.shards := sh |}.

Definition upload_hi : Server.request :=
  {| Server.query_token := Some "t"; Server.params_hash := "6869";
     Server.body := [["h"%byte]; ["i"%byte]] |}.

(** An upload of one byte that is not the shard. *)
Definition upload_other : Server.request :=
  {| Server.query_token := Some "t"; Server.params_hash := "6869";
     Server.body := [["x"%byte]] |}.

(** A download of the shard with the token ["u"]. *)
Definition download_hi : Server.request :=
  {| Server.query_token := Some "u"; Server.params_hash := "6869";
     Server.body := [] |}.

(** A target that answers every upload with 200 and the body ["ok"]. *)
Definition uploader_ok (target : Contact) (h token : string) (data : bytes)
  : Rules.upload_result :=
  Rules.uploaded 200 "ok".

(** A stream of at most one offer, with no farmer excluded. *)
Definition new_stream (contract : Contract.t) : Node.OfferStream :=
  {| Node.owner := contract; Node.maxOffers := 1;
     Node.farmerBlacklist := [] |}.

(** [node0] with a shard store that refuses writes. *)
Definition node_full_disk : Node.t := Node.with_shards full_disk node0.

(** [node0] with a contract store that answers reads with an error and
    takes deletions. *)
Definition node_broken_scan : Node.t :=
  Node.with_contracts
    {| entries := {[ "6869:xpubR" := Obj c1 ]};
       get_fault := Some "EIO"; put_fault := None |}
    node0.

End Fixture.

(** ** Notions used in the statements *)

(** The byte count after a sequence of ['data'] events. *)
Definition received (chunks : list bytes) : Z :=
  Z.of_nat (length (concat chunks)).

(** No ['data'] event takes the byte count of [upload], [receivedBytes]
    before the first of [chunks], above [shardSize]. *)
Fixpoint fits (shardSize : Z) (chunks : list bytes) (receivedBytes : Z)
  : bool :=
  match chunks with
  | [] => true
  | chunk :: rest =>
      let receivedBytes := receivedBytes + Z.of_nat (length chunk) in
      if bool_decide (shardSize < receivedBytes) then false
      else fits shardSize rest receivedBytes
  end.

(** [X] is the first property of [difference] outside [Rules.allowed]. *)
Definition first_offending (X : string) (difference : list string) : Prop :=
  exists before after,
    difference = before ++ X :: after /\
    Forall (fun prop => prop ∈ Rules.allowed) before /\
    X ∉ Rules.allowed.

(** The stores of the node answer every call. *)
Definition healthy (node : Node.t) : Prop :=
  get_fault (Node.contracts node) = None /\
  put_fault (Node.contracts node) = None /\
  Shards.write_fault (Node.shards node) = None.

(** A run of capacity announcements, the oldest first. *)
Definition announcements (run : list (string * Node.capacity))
    (node : Node.t) : Node.t :=
  foldl (fun node a => (Node.publishCapacityAnnouncement a.1 a.2 node).2)
    node run.

(** OFFER with its two rejections read as independent of each other. *)
Definition offer_rejections_independent `{Contract.Lib}
    (params : list Contract.value) (c : Contact) (node : Node.t) : Prop :=
  let contract := Contract.from (first_param params) in
  (Contract.isValid contract && Contract.isComplete contract = false ->
   Rules.offer params c node =
     Rules.offer_fail (Error "Invalid shard descriptor")) /\
  (Node.offers node !! Contract.data_hash contract = None ->
   Rules.offer params c node =
     Rules.offer_fail (Error "Offers for descriptor are closed")) /\
  (forall k stream c' contract',
     Rules.offer params c node = Rules.offer_queue k stream c' contract' ->
     Contract.isValid contract && Contract.isComplete contract = true /\
     Node.offers node !! Contract.data_hash contract = Some stream).

(** RENEW with a renewal that always ends in the rejection of a property
    or in the reply. *)
Definition renew_rejects_or_replies `{Contract.Lib}
    (params : list Contract.value) (c : Contact) (node : Node.t) : Prop :=
  let renewal := Contract.from (first_param params) in
  let key := contract_key (Contract.data_hash renewal) (xpub c.2) in
  Contract.isValid renewal && Contract.isComplete renewal = true ->
  forall desc,
    store_get key (Node.contracts node) = Ok desc ->
    let difference := Contract.diff (Contract.from desc) renewal in
    let signed :=
      Contract.sign Contract.farmer (Node.privateKey node) renewal in
    (forall X,
       (Rules.renew params c node).1
         = Fail (Error ("Rejecting renewal of " +:+ X)) <->
       first_offending X difference) /\
    (Forall (fun prop => prop ∈ Rules.allowed) difference ->
     (Rules.renew params c node).1 = Reply [Contract.toObject signed] /\
     entries (Node.contracts (Rules.renew params c node).2) !! key
       = Some (Contract.toObject signed)).


(** ** The shard server *)

Section ServerFacts.
Context `{Hashes}.
Import Server.

Lemma answered_quiet st tr :
  Forall (fun ev => is_respond ev = false) tr -> answered st tr = st.
Proof.
  unfold answered. revert st.
  induction tr as [|ev tr IH]; intros st Hq; [reflexivity|].
  inversion Hq as [|? ? Hev Htr]; subst. simpl.
  destruct ev; try discriminate; by apply IH.
Qed.

Lemma status_of_trace res evs code err later :
  trace res = evs ++ respond code err :: later ->
  Forall (fun ev => is_respond ev = false) later ->
  status res = Some code.
Proof.
  unfold status. intros -> Hq.
  unfold answered at 1. rewrite foldl_app. simpl.
  by apply answered_quiet.
Qed.

Lemma status_log r code err evs :
  status (log (evs ++ [respond code err]) r) = Some code.
Proof.
  apply (status_of_trace _ (trace r ++ evs) code err []); [|constructor].
  unfold log; simpl. by rewrite app_assoc.
Qed.

Lemma status_respond r code err :
  status (log [respond code err] r) = Some code.
Proof. apply (status_log r code err []). Qed.

Lemma authorize_Ok now token h srv e :
  authorize now token h srv = Ok e <->
  exists tok, token = Some tok /\ tok <> "" /\ _allowed srv !! tok = Some e /\
              h <> "" /\ now < expires e /\ hash e = h.
Proof.
  unfold authorize, truthy. split.
  - destruct token as [tok|]; [|discriminate].
    destruct (String.eqb_spec tok ""); simpl; [discriminate|].
    destruct (_allowed srv !! tok) as [e'|] eqn:Hl; [|discriminate].
    destruct (String.eqb_spec h ""); simpl; [discriminate|].
    case_bool_decide; simpl; [|discriminate].
    destruct (String.eqb_spec (hash e') h); simpl; [|discriminate].
    intros [= <-]. eauto 10.
  - intros (tok & -> & Htok & -> & Hh & Hexp & Hhash).
    destruct (String.eqb_spec tok ""); [contradiction|]; simpl.
    destruct (String.eqb_spec h ""); [contradiction|]; simpl.
    rewrite bool_decide_eq_true_2 by assumption; simpl.
    destruct (String.eqb_spec (hash e) h); [reflexivity|contradiction].
Qed.



Lemma fits_prefixes shardSize chunks : forall n,
  fits shardSize chunks n = true <->
  forall k, (0 < k <= length chunks)%nat ->
            n + received (take k chunks) <= shardSize.
Proof.
  unfold received.
  induction chunks as [|chunk rest IH]; intros n; simpl.
  - split; [intros _ k Hk; lia | reflexivity].
  - case_bool_decide as Hlt.
    + split; [discriminate|]. intros Hall.
      specialize (Hall 1%nat ltac:(lia)). simpl in Hall.
      rewrite ?take_0 in Hall. simpl in Hall.
      rewrite ?app_nil_r in Hall. lia.
    + rewrite IH. split.
      * intros Hall [|k] Hk; [lia|]. simpl.
        rewrite length_app, Nat2Z.inj_add.
        destruct k as [|k].
        -- rewrite ?take_0. simpl. lia.
        -- specialize (Hall (S k) ltac:(lia)). lia.
      * intros Hall k Hk.
        specialize (Hall (S k) ltac:(lia)). simpl in Hall.
        rewrite length_app, Nat2Z.inj_add in Hall. lia.
Qed.

Lemma received_take_le chunks k : received (take k chunks) <= received chunks.
Proof.
  unfold received. revert k.
  induction chunks as [|chunk rest IH]; intros [|k]; simpl;
    rewrite ?length_app, ?Nat2Z.inj_add; try lia.
  specialize (IH k). lia.
Qed.

(** With a declared size that is not negative, the byte count stays
    within it at every chunk exactly when the whole body does. *)
Lemma fits_total shardSize chunks :
  0 <= shardSize ->
  fits shardSize chunks 0 = true <-> received chunks <= shardSize.
Proof.
  intros Hpos. rewrite fits_prefixes. split.
  - intros Hall. destruct chunks as [|chunk rest]; [unfold received; simpl; lia|].
    specialize (Hall (length (chunk :: rest)) ltac:(simpl; lia)).
    rewrite take_ge in Hall by lia. lia.
  - intros Htot k _. pose proof (received_take_le chunks k). lia.
Qed.

(** Once the byte count is above the declared size, the listeners send
    no further response and leave no shard under the hash; the ['end']
    listener still revokes the token when the digest is the hash. *)
Lemma receive_late token contract h shardSize chunks : forall n hasher r,
  shardSize < n ->
  Shards.blobs (shards r) !! h = None ->
  let res := receive token contract h shardSize chunks n hasher true r in
  exists later,
    trace res = trace r ++ later /\
    Forall (fun ev => is_respond ev = false) later /\
    Shards.blobs (shards res) !! h = None /\
    server res =
      if decide (toString_hex (rmd160 (sha256 (hasher ++ concat chunks))) = h)
      then reject token (server r) else server r.
Proof.
  induction chunks as [|chunk rest IH]; intros n hasher r Hlt Hblob; simpl.
  - rewrite app_nil_r.
    destruct (String.eqb_spec (toString_hex (rmd160 (sha256 hasher))) h)
      as [Heq|Hne]; simpl.
    + exists [end_write h; emit_shardUploaded contract]. simpl.
      rewrite decide_True by assumption.
      repeat split; try assumption. by repeat constructor.
    + exists [unlink h]. simpl. rewrite decide_False by assumption.
      repeat split; [by repeat constructor|apply lookup_delete_eq].
  - rewrite bool_decide_eq_true_2 by lia.
    match goal with
    | |- context [receive _ _ _ _ _ ?n' ?hs' _ ?r'] =>
        destruct (IH n' hs' r') as (later & Htr & Hq & Hb & Hsrv);
          [lia|apply lookup_delete_eq|]
    end.
    simpl in *. exists (write h chunk :: unlink h :: later).
    rewrite <- !app_assoc in *. simpl in *.
    repeat split; try assumption. by repeat constructor.
Qed.

(** The ways the third task of [upload] ends. *)
Lemma receive_cases token contract h shardSize chunks : forall n hasher r,
  let res := receive token contract h shardSize chunks n hasher false r in
  (fits shardSize chunks n = true /\
   toString_hex (rmd160 (sha256 (hasher ++ concat chunks))) = h /\
   trace res = trace r ++ (write h <$> chunks) ++
     [end_write h; emit_shardUploaded contract; respond 200 None] /\
   server res = reject token (server r))
  \/
  (exists pre msg later,
     (fits shardSize chunks n = false \/
      toString_hex (rmd160 (sha256 (hasher ++ concat chunks))) <> h) /\
     trace res = trace r ++ pre ++
       [unlink h; respond 400 (Some (Error msg))] ++ later /\
     Forall (fun ev => is_respond ev = false) later /\
     Shards.blobs (shards res) !! h = None /\
     server res =
       if decide (toString_hex (rmd160 (sha256 (hasher ++ concat chunks))) = h)
       then reject token (server r) else server r).
Proof.
  induction chunks as [|chunk rest IH]; intros n hasher r; simpl.
  - rewrite app_nil_r.
    destruct (String.eqb_spec (toString_hex (rmd160 (sha256 hasher))) h)
      as [Heq|Hne]; simpl.
    + left. auto.
    + right. exists [], "Hash does not match contract", []. simpl.
      rewrite decide_False by assumption.
      split; [auto|]. split; [reflexivity|]. split; [constructor|].
      split; [apply lookup_delete_eq|reflexivity].
  - case_bool_decide as Hlt.
    + right.
      match goal with
      | |- context [receive _ _ _ _ _ ?n' ?hs' true ?r'] =>
          destruct (receive_late token contract h shardSize rest n' hs' r')
            as (later & Htr & Hq & Hb & Hsrv);
            [lia|apply lookup_delete_eq|]
      end.
      simpl in *.
      exists [write h chunk], "Shard exceeds size defined in contract", later.
      rewrite <- !app_assoc in *. simpl in *. auto.
    + match goal with
      | |- context [receive _ _ _ _ _ ?n' ?hs' false ?r'] =>
          destruct (IH n' hs' r')
            as [(Hfit & Hhash & Htr & Hsrv)
               |(pre & msg & later & Hwhy & Htr & Hq & Hblob & Hsrv)]
      end; simpl in *.
      * left. rewrite <- app_assoc in Hhash, Htr. auto.
      * right. exists (write h chunk :: pre), msg, later.
        rewrite <- !app_assoc in *. simpl in *. auto.
Qed.


Lemma status_rejected res tr pre h msg later :
  trace res = tr ++ pre ++
    [unlink h; respond 400 (Some (Error msg))] ++ later ->
  Forall (fun ev => is_respond ev = false) later ->
  status res = Some 400.
Proof.
  intros Htr Hq.
  apply (status_of_trace res (tr ++ pre ++ [unlink h]) 400
           (Some (Error msg)) later); [|assumption].
  rewrite Htr, <- !app_assoc. reflexivity.
Qed.

Lemma upload_authorized now req database r e :
  authorize now (query_token req) (params_hash req) (server r) = Ok e ->
  upload now req database r =
    match findOne (params_hash req) database with
    | Err err => log [respond 404 (Some err)] r
    | Ok None => log [respond 404 (Some (Error "Not found"))] r
    | Ok (Some contract) =>
        match Shards.createWriteStream (params_hash req) (shards r) with
        | Err err => log [respond 500 (Some err)] r
        | Ok sh =>
            receive (default "" (query_token req)) contract
              (params_hash req) (shardSize contract) (body req) 0 [] false
              {| trace := trace r; server := server r; shards := sh |}
        end
    end.
Proof.
  intros Hauth. unfold upload. rewrite Hauth.
  apply authorize_Ok in Hauth as (tok & _ & _ & _ & _ & _ & ->).
  reflexivity.
Qed.

(** What an upload answered with 200 went through. *)
Lemma upload_accepted_inv now req database r :
  status (upload now req database r) = Some 200 ->
  exists e contract sh,
    authorize now (query_token req) (params_hash req) (server r) = Ok e /\
    findOne (params_hash req) database = Ok (Some contract) /\
    Shards.createWriteStream (params_hash req) (shards r) = Ok sh /\
    fits (shardSize contract) (body req) 0 = true /\
    toString_hex (rmd160 (sha256 (concat (body req)))) = params_hash req /\
    server (upload now req database r) =
      reject (default "" (query_token req)) (server r).
Proof.
  intros Hst.
  destruct (authorize now (query_token req) (params_hash req) (server r))
    as [err|e] eqn:Hauth.
  { unfold upload in Hst. rewrite Hauth, status_respond in Hst.
    discriminate. }
  rewrite (upload_authorized _ _ _ _ _ Hauth) in Hst |- *.
  destruct (findOne (params_hash req) database) as [err|[contract|]];
    try (rewrite status_respond in Hst; discriminate).
  destruct (Shards.createWriteStream (params_hash req) (shards r))
    as [err|sh]; [rewrite status_respond in Hst; discriminate|].
  match type of Hst with
  | status (receive ?t ?c ?h ?sz ?ch ?n ?hs false ?r0) = _ =>
      destruct (receive_cases t c h sz ch n hs r0)
        as [(Hfit & Hhash & Htr & Hsrv)
           |(pre & msg & later & Hwhy & Htr & Hq & Hblob & Hsrv)]
  end.
  - exists e, contract, sh. repeat split; try reflexivity; assumption.
  - rewrite (status_rejected _ _ _ _ _ _ Htr Hq) in Hst. discriminate.
Qed.






(** The sweep keeps exactly the entries that did not expire before
    [now]. *)
Lemma reap_lookup now srv tok e :
  _allowed (_reapExpiredTokens now srv) !! tok = Some e <->
  _allowed srv !! tok = Some e /\ now <= expires e.
Proof.
  unfold _reapExpiredTokens; simpl.
  rewrite map_lookup_filter_Some; simpl. intuition lia.
Qed.


End ServerFacts.




(** ** The handlers *)

Section RulesFacts.
Context `{Contract.Lib} `{ProofStream}.
Import Rules.

(** *** OFFER *)

(** C8, as amended: OFFER checks the descriptor first. A descriptor that
    is not both valid and complete is rejected with "Invalid shard
    descriptor"; a valid and complete one with no stream registered under
    its [data_hash] is rejected with "Offers for descriptor are closed";
    a valid and complete one with a registered stream is queued on that
    stream, and nothing else is queued. *)
Theorem offer_checks_in_order params c node :
  let contract := Contract.from (first_param params) in
  let ok := Contract.isValid contract && Contract.isComplete contract in
  (ok = false ->
   offer params c node = offer_fail (Error "Invalid shard descriptor")) /\
  (ok = true ->
   Node.offers node !! Contract.data_hash contract = None ->
   offer params c node =
     offer_fail (Error "Offers for descriptor are closed")) /\
  (forall stream,
     ok = true ->
     Node.offers node !! Contract.data_hash contract = Some stream ->
     offer params c node =
       offer_queue (Contract.data_hash contract) stream c contract) /\
  (forall k stream c' contract',
     offer params c node = offer_queue k stream c' contract' ->
     ok = true /\
     Node.offers node !! Contract.data_hash contract = Some stream).
Proof.
  intros contract ok. subst contract ok. unfold offer.
  destruct (Contract.isValid (Contract.from (first_param params)) &&
            Contract.isComplete (Contract.from (first_param params)));
    simpl.
  - split; [discriminate|]. split; [|split].
    + intros _ ->. reflexivity.
    + intros stream _ ->. reflexivity.
    + intros k stream c' contract'.
      destruct (Node.offers node !! _) as [s|]; [|discriminate].
      intros [= _ <- _ _]. split; reflexivity.
  - split; [reflexivity|]. split; [discriminate|].
    split; [discriminate|]. intros k stream c' contract'. discriminate.
Qed.

(** *** AUDIT *)

Lemma mapM_None_iff {A B} (f : A -> option B) (l : list A) :
  mapM f l = None <-> exists x, x ∈ l /\ f x = None.
Proof.
  induction l as [|x l IH]; simpl.
  - split; [discriminate|]. intros (x & Hx & _). by apply elem_of_nil in Hx.
  - destruct (f x) as [y|] eqn:Hfx; simpl.
    + destruct (mapM f l) as [k|] eqn:Hk; simpl.
      * split; [discriminate|]. intros (x' & Hx' & Hf').
        apply elem_of_cons in Hx' as [->|Hin]; [congruence|].
        assert (Some k = None) as Hnone by (apply IH; eauto).
        discriminate.
      * split; [|reflexivity]. intros _.
        destruct (proj1 IH eq_refl) as (x' & Hx' & Hf').
        exists x'. split; [by apply elem_of_cons; right|exact Hf'].
    + split; [|reflexivity]. intros _.
      exists x. split; [by apply elem_of_cons; left|exact Hfx].
Qed.

(** The iteratee leaves [done] uncalled only for a shard stream that was
    opened and emits ['error']. *)
Lemma audit_one_None x fin node item :
  audit_one x fin node item = None <->
  exists desc shard delivered,
    store_get (contract_key (hash item) x) (Node.contracts node) = Ok desc /\
    Shards.createReadStream (hash item) (Node.shards node) = Ok shard /\
    fin (hash item) = Server.errored delivered.
Proof.
  unfold audit_one.
  destruct (store_get _ (Node.contracts node)) as [e|desc]; simpl.
  { split; [discriminate|]. intros (? & ? & ? & ? & _). discriminate. }
  destruct (Shards.createReadStream _ (Node.shards node)) as [e|shard];
    simpl.
  { split; [discriminate|]. intros (? & ? & ? & _ & ? & _). discriminate. }
  destruct (fin (hash item)) as [|delivered].
  - split; [discriminate|]. intros (? & ? & ? & _ & _ & ?). discriminate.
  - split; [|reflexivity]. intros _. exists desc, shard, delivered. auto.
Qed.

(** C2, what the handler does: an AUDIT batch gets no answer at all,
    neither a reply nor an error, exactly when for one of its items the
    contract is loaded, the read stream of the shard is opened and that
    stream then emits ['error']. In every other case the batch is
    answered, never failed: the reply has one item per input, in the same
    order and with the same hash; its proof is null when the contract
    cannot be loaded or the shard cannot be opened, and otherwise it is
    what the proof stream gives, null when the proof fails. *)
Theorem audit_unanswered_iff audits c fin node :
  (audit (batch audits) c fin node = None <->
   exists item desc shard delivered,
     item ∈ audits /\
     store_get (contract_key (hash item) (xpub c.2)) (Node.contracts node)
       = Ok desc /\
     Shards.createReadStream (hash item) (Node.shards node) = Ok shard /\
     fin (hash item) = Server.errored delivered)
  /\
  (forall out,
     audit (batch audits) c fin node = Some out ->
     exists proofs,
       out = Reply proofs /\
       length proofs = length audits /\
       forall i item,
         audits !! i = Some item ->
         exists p,
           proofs !! i = Some p /\
           proof_hash p = hash item /\
           (forall e,
              store_get (contract_key (hash item) (xpub c.2))
                (Node.contracts node) = Err e ->
              proof p = None) /\
           (forall desc e,
              store_get (contract_key (hash item) (xpub c.2))
                (Node.contracts node) = Ok desc ->
              Shards.createReadStream (hash item) (Node.shards node) = Err e ->
              proof p = None) /\
           (forall desc shard,
              store_get (contract_key (hash item) (xpub c.2))
                (Node.contracts node) = Ok desc ->
              Shards.createReadStream (hash item) (Node.shards node)
                = Ok shard ->
              proof p =
                prove (Contract.audit_leaves (Contract.from desc))
                  (challenge item) shard)).
Proof.
  unfold audit. split.
  - rewrite fmap_None, mapM_None_iff. split.
    + intros (item & Hin & Hnone).
      apply audit_one_None in Hnone as (desc & shard & delivered & Hnone).
      exists item, desc, shard, delivered. auto.
    + intros (item & desc & shard & delivered & Hin & Hsome).
      exists item. split; [exact Hin|]. apply audit_one_None. eauto.
  - intros out Hout.
    apply fmap_Some in Hout as (proofs & Hm & ->).
    exists proofs. split; [reflexivity|].
    apply mapM_Some in Hm.
    split; [symmetry; by eapply Forall2_length|].
    intros i item Hi.
    destruct (Forall2_lookup_l _ _ _ _ _ Hm Hi) as (p & Hp & Hone).
    exists p. split; [exact Hp|].
    unfold audit_one in Hone.
    destruct (store_get _ (Node.contracts node)) as [e|desc]; simpl in Hone.
    { injection Hone as <-. repeat split; try discriminate; reflexivity. }
    destruct (Shards.createReadStream _ (Node.shards node)) as [e|shard];
      simpl in Hone.
    { injection Hone as <-. repeat split; try discriminate; reflexivity. }
    destruct (fin (hash item)); [|discriminate].
    injection Hone as <-.
    repeat split; try discriminate.
    intros desc' shard' [= <-] [= <-]. reflexivity.
Qed.

(** *** Errors handed over by the stores *)

Lemma store_get_Err {V} key (db : store V) e msg :
  store_get key db = Err e -> e <> Error msg.
Proof.
  unfold store_get.
  destruct (get_fault db); [|destruct (entries db !! key)];
    intros [= <-]; discriminate.
Qed.

Lemma store_put_Some {V} key (v : V) db e db' msg :
  store_put key v db = (Some e, db') -> e <> Error msg /\ db' = db.
Proof.
  unfold store_put. destruct (put_fault db); intros [= <- <-].
  split; [discriminate|reflexivity].
Qed.

Lemma exists_Err h sh e msg :
  Shards.exists_ h sh = Err e -> e <> Error msg.
Proof.
  unfold Shards.exists_.
  destruct (Shards.read_fault sh); intros [= <-]; discriminate.
Qed.

(** A payload that is no array is the one case in which AUDIT fails. *)
Lemma audit_not_an_array c fin node :
  audit not_an_array c fin node
    = Some (Fail (Error "Invalid audit batch supplied")).
Proof. reflexivity. Qed.

(** *** CONSIGN *)

Lemma accept_lookup now token h c srv :
  Server._allowed (Server.accept now token h c srv) !! token =
    Some {| Server.hash := h; Server.contact := c;
            Server.expires := now + Server._ttl srv |}.
Proof. unfold Server.accept; simpl. apply lookup_insert_eq. Qed.

(** C5: with the contract for the hash and the renter in the store,
    CONSIGN fails with "Contract has expired" exactly when
    [now > store_end]; then the node, and so the token table, is left as
    it was. Otherwise the reply is the token just drawn, and the token
    table holds it for the hash and the contact. *)
Theorem consign_expired_iff h c now now_accept rnd node desc :
  store_get (contract_key h (xpub c.2)) (Node.contracts node) = Ok desc ->
  let contract := Contract.from desc in
  let res := consign h c now now_accept rnd node in
  (res.1 = Fail (Error "Contract has expired") <->
   Contract.store_end contract < now) /\
  (Contract.store_end contract < now -> res.2 = node) /\
  (~ Contract.store_end contract < now ->
   res.1 = Reply [mint_token rnd] /\
   Server._allowed (Node.server res.2) !! mint_token rnd =
     Some {| Server.hash := h; Server.contact := c;
             Server.expires :=
               now_accept + Server._ttl (Node.server node) |} /\
   Node.contracts res.2 = Node.contracts node).
Proof.
  intros Hget contract res. subst contract res. unfold consign.
  rewrite Hget. case_bool_decide as Hexp; simpl.
  - repeat split; try done.
  - repeat split; try done. apply accept_lookup.
Qed.

(** *** RETRIEVE *)

(** C6: RETRIEVE fails with "Shard not found" exactly when the contract
    for the hash and the renter is in the store and the shard store
    answers that the shard does not exist. With contract and shard both
    there, the reply is the token just drawn, and the token table holds
    it for the hash and the contact. *)
Theorem retrieve_not_found_iff h c now_accept rnd node :
  let res := retrieve h c now_accept rnd node in
  (res.1 = Fail (Error "Shard not found") <->
   (exists desc,
      store_get (contract_key h (xpub c.2)) (Node.contracts node)
        = Ok desc) /\
   Shards.exists_ h (Node.shards node) = Ok false) /\
  (forall desc,
     store_get (contract_key h (xpub c.2)) (Node.contracts node)
       = Ok desc ->
     Shards.exists_ h (Node.shards node) = Ok true ->
     res.1 = Reply [mint_token rnd] /\
     Server._allowed (Node.server res.2) !! mint_token rnd =
       Some {| Server.hash := h; Server.contact := c;
               Server.expires :=
                 now_accept + Server._ttl (Node.server node) |}).
Proof.
  intros res. subst res. unfold retrieve.
  destruct (store_get _ (Node.contracts node)) as [e|desc] eqn:Hget; simpl.
  - split; [|discriminate]. split.
    + intros [= ->]. by eapply store_get_Err in Hget.
    + intros [[desc [=]] _].
  - destruct (Shards.exists_ h (Node.shards node)) as [e|[|]] eqn:Hex;
      simpl.
    + split; [|discriminate]. split.
      * intros [= ->]. by eapply exists_Err in Hex.
      * intros [_ [=]].
    + split.
      * split; [discriminate|]. intros [_ [=]].
      * intros desc' _ _. split; [reflexivity|apply accept_lookup].
    + split; [|discriminate]. split; eauto.
Qed.

(** *** RENEW *)

Lemma rejected_Some difference X :
  rejected difference = Some X <-> first_offending X difference.
Proof.
  unfold first_offending. induction difference as [|prop rest IH]; simpl.
  - split; [discriminate|].
    intros (before & after & Heq & _). by destruct before.
  - case_bool_decide as Hin; simpl.
    + rewrite IH. split.
      * intros (before & after & -> & Hall & Hout).
        exists (prop :: before), after. auto.
      * intros (before & after & Heq & Hall & Hout).
        destruct before as [|b before]; simpl in Heq;
          injection Heq as -> ->; [contradiction|].
        apply Forall_cons in Hall as [_ Hall]. eauto.
    + split.
      * intros [= ->]. exists [], rest. auto.
      * intros (before & after & Heq & Hall & Hout).
        destruct before as [|b before]; simpl in Heq;
          injection Heq as -> ->; [reflexivity|].
        apply Forall_cons in Hall as [Hb _]. contradiction.
Qed.

Lemma rejected_None difference :
  rejected difference = None <->
  Forall (fun prop => prop ∈ allowed) difference.
Proof.
  induction difference as [|prop rest IH]; simpl.
  - split; auto.
  - rewrite Forall_cons. case_bool_decide as Hin; simpl.
    + rewrite IH. tauto.
    + split; [discriminate|tauto].
Qed.

Lemma rejecting_inj X Y :
  "Rejecting renewal of " +:+ X = "Rejecting renewal of " +:+ Y -> X = Y.
Proof. apply (inj (String.app "Rejecting renewal of ")). Qed.

(** C3, as amended: for a valid and complete renewal whose local contract
    is in the store, RENEW rejects with "Rejecting renewal of X" exactly
    when X is the first property of the diff outside the allowed set,
    and then leaves the node as it was. When every property of the diff
    is allowed it signs as farmer and writes the renewal to the store:
    if the write succeeds the reply is the signed renewal, which the
    store then holds under the key, and if the write fails the handler
    fails with the error of the store and the store is unchanged. *)
Theorem renew_rejects_iff params c node desc :
  let renewal := Contract.from (first_param params) in
  let key := contract_key (Contract.data_hash renewal) (xpub c.2) in
  Contract.isValid renewal && Contract.isComplete renewal = true ->
  store_get key (Node.contracts node) = Ok desc ->
  let difference := Contract.diff (Contract.from desc) renewal in
  let signed :=
    Contract.sign Contract.farmer (Node.privateKey node) renewal in
  let res := renew params c node in
  (forall X,
     res.1 = Fail (Error ("Rejecting renewal of " +:+ X)) <->
     first_offending X difference) /\
  (forall X, first_offending X difference -> res.2 = node) /\
  (Forall (fun prop => prop ∈ allowed) difference ->
   (put_fault (Node.contracts node) = None ->
    res.1 = Reply [Contract.toObject signed] /\
    entries (Node.contracts res.2) !! key
      = Some (Contract.toObject signed)) /\
   (forall msg,
      put_fault (Node.contracts node) = Some msg ->
      res.1 = Fail (UpstreamError msg) /\
      Node.contracts res.2 = Node.contracts node)).
Proof.
  intros renewal key Hok Hget difference signed res.
  subst res. unfold renew.
  fold renewal. fold key. rewrite Hok, Hget. simpl.
  fold difference. fold signed.
  destruct (rejected difference) as [prop|] eqn:Hrej.
  - apply rejected_Some in Hrej as Hfirst. simpl.
    split; [|split].
    + intros X. split.
      * intros Heq.
        assert ("Rejecting renewal of " +:+ prop
                = "Rejecting renewal of " +:+ X) as Hmsg
          by (set (m1 := _ +:+ prop) in *; set (m2 := _ +:+ X) in *;
              congruence).
        apply rejecting_inj in Hmsg. by subst.
      * intros HX%rejected_Some.
        assert (prop = X) as -> by congruence. reflexivity.
    + reflexivity.
    + intros Hall%rejected_None. congruence.
  - split; [|split].
    + intros X. split.
      * unfold store_put. destruct (put_fault (Node.contracts node));
          simpl; discriminate.
      * intros HX%rejected_Some. congruence.
    + intros X HX%rejected_Some. congruence.
    + intros _. unfold store_put. split.
      * intros ->. simpl. split; [reflexivity|apply lookup_insert_eq].
      * intros msg ->. simpl. split; reflexivity.
Qed.

(** *** CLAIM *)

(** C7: CLAIM fails with "Currently rejecting claims" exactly when the
    allow-list holds neither the [renter_hd_key] of the descriptor nor
    ["*"]; the node is then left as it was: nothing is persisted and no
    token is accepted. *)
Theorem claim_rejected_unless_allowed params c now_accept rnd node :
  let x := Contract.renter_hd_key (Contract.from (first_param params)) in
  let res := claim params c now_accept rnd node in
  (res.1 = Fail (Error "Currently rejecting claims") <->
   ~ (x ∈ Node.claims node \/ "*" ∈ Node.claims node)) /\
  (~ (x ∈ Node.claims node \/ "*" ∈ Node.claims node) -> res.2 = node).
Proof.
  intros x res. subst res. unfold claim. fold x.
  destruct (decide (x ∈ Node.claims node)) as [Hx|Hx].
  { rewrite (bool_decide_eq_true_2 _ Hx). simpl.
    split; [|tauto]. split; [|tauto]. intros Hfail. exfalso.
    destruct (negb _) in Hfail; [discriminate|].
    unfold store_put in Hfail.
    destruct (put_fault (Node.contracts node)); discriminate. }
  rewrite (bool_decide_eq_false_2 _ Hx). simpl.
  destruct (decide ("*" ∈ Node.claims node)) as [Hs|Hs].
  { rewrite (bool_decide_eq_true_2 _ Hs). simpl.
    split; [|tauto]. split; [|tauto]. intros Hfail. exfalso.
    destruct (negb _) in Hfail; [discriminate|].
    unfold store_put in Hfail.
    destruct (put_fault (Node.contracts node)); discriminate. }
  rewrite (bool_decide_eq_false_2 _ Hs). simpl.
  split; [|reflexivity]. split; [tauto|reflexivity].
Qed.

(** *** Capacity announcements *)

(** C10: [publishCapacityAnnouncement] with [data.available <= 0] sets the
    allow-list to the empty list, so a CLAIM on the resulting node is
    rejected with "Currently rejecting claims" and changes nothing; with
    [data.available > 0] the allow-list is left as it was. *)
Theorem publishCapacityAnnouncement_claims descriptorCode data node :
  let node' := (Node.publishCapacityAnnouncement descriptorCode data node).2
  in
  (Node.available data <= 0 ->
   Node.claims node' = [] /\
   forall params c now_accept rnd,
     claim params c now_accept rnd node' =
       (Fail (Error "Currently rejecting claims"), node')) /\
  (0 < Node.available data -> Node.claims node' = Node.claims node).
Proof.
  intros node'. subst node'.
  unfold Node.publishCapacityAnnouncement; simpl. split.
  - intros Hle. rewrite bool_decide_eq_false_2 by lia.
    split; [reflexivity|]. intros params c now_accept rnd.
    unfold claim; simpl. reflexivity.
  - intros Hlt. by rewrite bool_decide_eq_true_2.
Qed.

End RulesFacts.

(** ** The client calls *)

Section NodeFacts.
Context `{Contract.Lib}.
Import Node.

(** After a successful OFFER the store holds the descriptor the peer
    replied with. *)
Lemma offerShardAllocation_persists_descriptor peer result node contract
    node' :
  offerShardAllocation peer (Ok result) node = (Ok contract, node') ->
  contract = Contract.from (first_param result) /\
  entries (contracts node')
    !! contract_key (Contract.data_hash contract) (xpub peer.2)
    = Some (first_param result).
Proof.
  unfold offerShardAllocation.
  destruct (negb _); [discriminate|].
  unfold store_put. destruct (put_fault (contracts node)); [discriminate|].
  intros [= <- <-]. simpl. split; [reflexivity|apply lookup_insert_eq].
Qed.

(** C4: after a successful [requestContractRenewal] the store holds, under
    the contract key, the whole reply array and not the descriptor that
    is its first element. *)
Theorem requestContractRenewal_persists_reply_array peer result node
    contract node' :
  requestContractRenewal peer (Ok result) node = (Ok contract, node') ->
  contract = Contract.from (first_param result) /\
  Contract.isValid contract && Contract.isComplete contract = true /\
  entries (contracts node')
    !! contract_key (Contract.data_hash contract) (xpub peer.2)
    = Some (Contract.Arr result) /\
  forall d,
    entries (contracts node')
      !! contract_key (Contract.data_hash contract) (xpub peer.2)
      <> Some (Contract.Obj d).
Proof.
  unfold requestContractRenewal.
  destruct (Contract.isValid _ && Contract.isComplete _) eqn:Hok;
    [|discriminate]. simpl.
  unfold store_put. destruct (put_fault (contracts node)); [discriminate|].
  intros [= <- <-]. simpl. rewrite lookup_insert_eq.
  repeat split; [assumption|]. intros d. discriminate.
Qed.

End NodeFacts.

(** ** The handlers and client calls on examples *)

(** C8, counterexample: a descriptor the farmer has not signed, offered to
    a node with no stream registered, is rejected with "Invalid shard
    descriptor" and not with "Offers for descriptor are closed". *)
Lemma offer_unsigned_without_stream :
  ~ @offer_rejections_independent Fixture.lib
      [Contract.Obj Fixture.unsigned] Fixture.farmer_contact Fixture.node0.
Proof.
  unfold offer_rejections_independent. intros (_ & Hclosed & _).
  specialize (Hclosed ltac:(vm_compute; reflexivity)).
  vm_compute in Hclosed. discriminate.
Qed.

(** A signed descriptor offered to the node that published it is queued. *)
Lemma offer_checks_in_order_witness :
  @Rules.offer Fixture.lib [Contract.Obj Fixture.c1] Fixture.farmer_contact
    Fixture.publisher_node
  = Rules.offer_queue "6869" Fixture.stream0 Fixture.farmer_contact
      Fixture.c1.
Proof.
  apply (proj1 (proj2 (proj2
           (@offer_checks_in_order Fixture.lib [Contract.Obj Fixture.c1]
              Fixture.farmer_contact Fixture.publisher_node)))
           Fixture.stream0).
  - vm_compute. reflexivity.
  - vm_compute. reflexivity.
Defined.

(** A batch of two audits whose first shard is read by a stream that
    emits ['error'] after its first byte: the batch gets no answer. *)
Lemma audit_unanswered_iff_witness :
  @Rules.audit Fixture.lib Fixture.proofs (Rules.batch Fixture.audits0)
    Fixture.renter_contact Fixture.stream_breaks Fixture.node0 = None.
Proof.
  apply (proj1 (@audit_unanswered_iff Fixture.lib Fixture.proofs
                  Fixture.audits0 Fixture.renter_contact
                  Fixture.stream_breaks Fixture.node0)).
  exists {| Rules.hash := "6869"; Rules.challenge := "c0" |},
    (Contract.Obj Fixture.c1), Fixture.shard, [Byte.x68].
  split; [apply elem_of_cons; by left|].
  split; [vm_compute; reflexivity|].
  split; vm_compute; reflexivity.
Defined.

(** C3, counterexample: a renewal that only moves [store_end], sent to a
    node whose contract store refuses the write, is neither rejected for a
    property nor answered with the signed renewal: the handler fails with
    the error of the store. *)
Lemma renew_store_write_failure :
  ~ @renew_rejects_or_replies Fixture.lib [Contract.Obj Fixture.c3]
      Fixture.renter_contact Fixture.node_read_only.
Proof.
  unfold renew_rejects_or_replies. intros Hclaim.
  specialize (Hclaim ltac:(vm_compute; reflexivity) (Contract.Obj Fixture.c1)
                ltac:(vm_compute; reflexivity)).
  destruct Hclaim as [_ Hreply].
  destruct Hreply as [Hreply _].
  { apply rejected_None. vm_compute. reflexivity. }
  vm_compute in Hreply. discriminate.
Qed.

(** A renewal that changes [farmer_hd_key] is rejected for it; one that
moves [store_end] is signed and answered. *)
Lemma renew_rejects_iff_witness :
  (@Rules.renew Fixture.lib [Contract.Obj Fixture.c2] Fixture.renter_contact
     Fixture.node0).1
  = Fail (Error "Rejecting renewal of farmer_hd_key") /\
  (@Rules.renew Fixture.lib [Contract.Obj Fixture.c3] Fixture.renter_contact
     Fixture.node0).1
  = Reply [Contract.Obj
             (Fixture.sign Contract.farmer ["k"%byte] Fixture.c3)].
Proof.
  split.
  - apply (proj1 (@renew_rejects_iff Fixture.lib [Contract.Obj Fixture.c2]
                    Fixture.renter_contact Fixture.node0
                    (Contract.Obj Fixture.c1)
                    ltac:(vm_compute; reflexivity)
                    ltac:(vm_compute; reflexivity)) "farmer_hd_key").
    apply rejected_Some. vm_compute. reflexivity.
  - apply (proj2 (proj2
             (@renew_rejects_iff Fixture.lib [Contract.Obj Fixture.c3]
                Fixture.renter_contact Fixture.node0
                (Contract.Obj Fixture.c1)
                ltac:(vm_compute; reflexivity)
                ltac:(vm_compute; reflexivity)))).
    + apply rejected_None. vm_compute. reflexivity.
    + vm_compute. reflexivity.
Defined.

(** The renter stores the array [[c3]] under the key of the contract. *)
Lemma requestContractRenewal_persists_reply_array_witness :
  entries
    (Node.contracts
       (@Node.requestContractRenewal Fixture.lib Fixture.farmer_contact
          (Ok [Contract.Obj Fixture.c3]) Fixture.renter_node).2)
    !! "6869:xpubF"
  = Some (Contract.Arr [Contract.Obj Fixture.c3]).
Proof.
  apply (proj1 (proj2 (proj2
           (@requestContractRenewal_persists_reply_array Fixture.lib
              Fixture.farmer_contact [Contract.Obj Fixture.c3]
              Fixture.renter_node Fixture.c3
              (@Node.requestContractRenewal Fixture.lib
                 Fixture.farmer_contact (Ok [Contract.Obj Fixture.c3])
                 Fixture.renter_node).2
              ltac:(vm_compute; reflexivity))))).
Defined.

(** CONSIGN after and before [store_end]. *)
Lemma consign_expired_iff_witness :
  (@Rules.consign Fixture.lib "6869" Fixture.renter_contact 2000 2001
     ["a"%byte] Fixture.node0)
  = (Fail (Error "Contract has expired"), Fixture.node0) /\
  (@Rules.consign Fixture.lib "6869" Fixture.renter_contact 500 501
     ["a"%byte] Fixture.node0).1
  = Reply ["61"].
Proof.
  pose proof (@consign_expired_iff Fixture.lib "6869" Fixture.renter_contact
                2000 2001 ["a"%byte] Fixture.node0 (Contract.Obj Fixture.c1)
                ltac:(vm_compute; reflexivity)) as (Hiff & Hsame & _).
  pose proof (@consign_expired_iff Fixture.lib "6869" Fixture.renter_contact
                500 501 ["a"%byte] Fixture.node0 (Contract.Obj Fixture.c1)
                ltac:(vm_compute; reflexivity)) as (_ & _ & Hlive).
  split.
  - apply injective_projections; simpl.
    + apply Hiff. simpl. lia.
    + apply Hsame. simpl. lia.
  - apply Hlive. simpl. lia.
Defined.

(** RETRIEVE on a node with the shard, and on one with the contract but
without the shard. *)
Lemma retrieve_not_found_iff_witness :
  (Rules.retrieve "6869" Fixture.renter_contact 501 ["a"%byte]
     Fixture.node0).1
  = Reply ["61"] /\
  (Rules.retrieve "6869" Fixture.renter_contact 501 ["a"%byte]
     (Node.with_contracts (Node.contracts Fixture.node0)
        Fixture.renter_node)).1
  = Fail (Error "Shard not found").
Proof.
  split.
  - apply (proj2 (retrieve_not_found_iff "6869"
                    Fixture.renter_contact 501 ["a"%byte] Fixture.node0)
             (Contract.Obj Fixture.c1));
      vm_compute; reflexivity.
  - apply (proj1 (retrieve_not_found_iff "6869"
                    Fixture.renter_contact 501 ["a"%byte] _)).
    split; [exists (Contract.Obj Fixture.c1)|]; vm_compute; reflexivity.
Defined.

(** CLAIM on a node with the default, empty allow-list. *)
Lemma claim_rejected_unless_allowed_witness :
  @Rules.claim Fixture.lib [Contract.Obj Fixture.unsigned]
    Fixture.renter_contact 0 ["a"%byte] Fixture.renter_node
  = (Fail (Error "Currently rejecting claims"), Fixture.renter_node).
Proof.
  pose proof (@claim_rejected_unless_allowed Fixture.lib
                [Contract.Obj Fixture.unsigned] Fixture.renter_contact 0
                ["a"%byte] Fixture.renter_node) as (Hiff & Hsame).
  assert (~ ("xpubR" ∈ @nil string \/ "*" ∈ @nil string)) as Hclosed
    by (intros [Hin|Hin]; apply elem_of_nil in Hin; exact Hin).
  apply injective_projections; simpl.
  - apply Hiff. exact Hclosed.
  - apply Hsame. exact Hclosed.
Defined.

(** Announcing no capacity empties the allow-list; announcing some keeps
it. *)
Lemma publishCapacityAnnouncement_claims_witness :
  Node.claims
    (Node.publishCapacityAnnouncement "0a"
       {| Node.available := 0; Node.allocated := 7 |} Fixture.node0).2 = [] /\
  Node.claims
    (Node.publishCapacityAnnouncement "0a"
       {| Node.available := 3; Node.allocated := 4 |} Fixture.node0).2
  = ["xpubR"].
Proof.
  split.
  - apply (proj1 (@publishCapacityAnnouncement_claims Fixture.lib "0a"
                    {| Node.available := 0; Node.allocated := 7 |}
                    Fixture.node0)).
    simpl. lia.
  - apply (proj2 (@publishCapacityAnnouncement_claims Fixture.lib "0a"
                    {| Node.available := 3; Node.allocated := 4 |}
                    Fixture.node0)).
    simpl. lia.
Defined.

(** ** More on the shard server *)

Section ServerMore.
Context `{Hashes}.
Import Server.

(** A token accepted for a hash authorizes exactly that hash, and only
until the time to live has passed: [authorize] on the table right after
[accept] succeeds iff token and hash are not empty, the hash is the one
accepted and [now' < now + _ttl]; it then returns the entry of [accept]. *)
Theorem accept_authorize_iff now now' token h h' c srv e :
  authorize now' (Some token) h' (accept now token h c srv) = Ok e <->
  token <> "" /\ h' <> "" /\ h' = h /\ now' < now + _ttl srv /\
  e = {| hash := h; contact := c; expires := now + _ttl srv |}.
Proof.
  rewrite authorize_Ok. split.
  - intros (tok & [= <-] & Htok & Hl & Hh & Hexp & Hhash).
    unfold accept in Hl; simpl in Hl. rewrite lookup_insert_eq in Hl.
    injection Hl as <-. simpl in *. subst h'. repeat split; assumption.
  - intros (Htok & Hh & -> & Hexp & ->).
    exists token. unfold accept; simpl. rewrite lookup_insert_eq.
    repeat split; assumption.
Qed.

(** [reject] revokes its token and no other; [accept] changes what
[authorize] answers for no other token. *)
Theorem reject_revokes_only_token now now' token tok h h' c srv :
  (token <> "" ->
   authorize now' (Some token) h' (reject token srv)
     = Err (AssertionError "The token is not accepted")) /\
  (tok <> token ->
   authorize now' (Some tok) h' (reject token srv)
     = authorize now' (Some tok) h' srv) /\
  (tok <> token ->
   authorize now' (Some tok) h' (accept now token h c srv)
     = authorize now' (Some tok) h' srv).
Proof.
  unfold authorize, reject, accept; simpl. split; [|split].
  - intros Htok. unfold truthy.
    destruct (String.eqb_spec token ""); [contradiction|]. simpl.
    by rewrite lookup_delete_eq.
  - intros Hne. by rewrite lookup_delete_ne.
  - intros Hne. by rewrite lookup_insert_ne.
Qed.

(** The sweep takes away no authorization: at any time from the sweep on,
[authorize] succeeds on the swept table exactly when it succeeds on the
table before the sweep, with the same entry. *)
Theorem reap_keeps_live_tokens now now' token h srv e :
  now <= now' ->
  authorize now' token h (_reapExpiredTokens now srv) = Ok e <->
  authorize now' token h srv = Ok e.
Proof.
  intros Hle. rewrite !authorize_Ok. split.
  - intros (tok & -> & Htok & Hl & Hh & Hexp & Hhash).
    apply reap_lookup in Hl as [Hl _]. eauto 10.
  - intros (tok & -> & Htok & Hl & Hh & Hexp & Hhash).
    exists tok. repeat split; try assumption.
    apply reap_lookup. split; [assumption|lia].
Qed.

(** What the third task of [upload] does to the shard store: it touches
no shard but that of the hash; when it accepts, the shard holds what the
stream held, followed by the chunks. *)
Lemma receive_shards token contract h shardSize chunks :
  forall n hasher responded r,
  let res :=
    receive token contract h shardSize chunks n hasher responded r in
  (forall h', h' <> h ->
     Shards.blobs (shards res) !! h' = Shards.blobs (shards r) !! h') /\
  Shards.read_fault (shards res) = Shards.read_fault (shards r) /\
  Shards.write_fault (shards res) = Shards.write_fault (shards r) /\
  (forall held,
     Shards.blobs (shards r) !! h = Some held ->
     fits shardSize chunks n = true ->
     toString_hex (rmd160 (sha256 (hasher ++ concat chunks))) = h ->
     Shards.blobs (shards res) !! h = Some (held ++ concat chunks)).
Proof.
  induction chunks as [|chunk rest IH]; intros n hasher responded r; simpl.
  - rewrite app_nil_r.
    destruct (String.eqb_spec (toString_hex (rmd160 (sha256 hasher))) h)
      as [Heq|Hne]; simpl.
    + split; [done|]. split; [done|]. split; [done|].
      intros held Hheld _ _. by rewrite app_nil_r.
    + split; [intros h' Hh'; by rewrite lookup_delete_ne|].
      split; [done|]. split; [done|]. intros held _ _ Hd. contradiction.
  - case_bool_decide as Hlt; simpl.
    + match goal with
      | |- context [receive _ _ _ _ _ ?n' ?hs' true ?r'] =>
          destruct (IH n' hs' true r') as (Hframe & Hrf & Hwf & _)
      end; simpl in *.
      split.
      { intros h' Hh'. rewrite (Hframe h' Hh').
        by rewrite lookup_delete_ne, lookup_insert_ne. }
      split; [done|]. split; [done|]. discriminate.
    + match goal with
      | |- context [receive _ _ _ _ _ ?n' ?hs' responded ?r'] =>
          destruct (IH n' hs' responded r') as (Hframe & Hrf & Hwf & Hheld)
      end; simpl in *.
      split.
      { intros h' Hh'. rewrite (Hframe h' Hh'). by rewrite lookup_insert_ne. }
      split; [done|]. split; [done|].
      intros held Hh Hfit Hd.
      rewrite (Hheld (held ++ chunk)).
      * by rewrite <- app_assoc.
      * rewrite lookup_insert_eq, Hh. reflexivity.
      * assumption.
      * by rewrite <- app_assoc.
Qed.

(** What [upload] does to the shard store. *)
Lemma upload_shards now req database r :
  let res := upload now req database r in
  (forall h', h' <> params_hash req ->
     Shards.blobs (shards res) !! h' = Shards.blobs (shards r) !! h') /\
  Shards.read_fault (shards res) = Shards.read_fault (shards r) /\
  Shards.write_fault (shards res) = Shards.write_fault (shards r) /\
  (status res = Some 200 ->
   Shards.blobs (shards res) !! params_hash req = Some (concat (body req))).
Proof.
  intros res. subst res.
  destruct (authorize now (query_token req) (params_hash req) (server r))
    as [err|e] eqn:Hauth.
  { unfold upload. rewrite Hauth. simpl.
    repeat split; try done. rewrite status_respond. discriminate. }
  rewrite (upload_authorized _ _ _ _ _ Hauth).
  destruct (findOne (params_hash req) database) as [err|[contract|]];
    try (simpl; repeat split; try done; rewrite status_respond;
         discriminate).
  destruct (Shards.createWriteStream (params_hash req) (shards r))
    as [err|sh] eqn:Hws.
  { simpl; repeat split; try done. rewrite status_respond. discriminate. }
  unfold Shards.createWriteStream in Hws.
  destruct (Shards.write_fault (shards r)) eqn:Hwf; [discriminate|].
  injection Hws as <-.
  match goal with
  | |- context [receive ?t ?c ?h ?sz ?ch ?n ?hs false ?r0] =>
      destruct (receive_shards t c h sz ch n hs false r0)
        as (Hframe & Hrf & Hwf' & Hheld);
      destruct (receive_cases t c h sz ch n hs r0)
        as [(Hfit & Hhash & Htr & _)|(pre & msg & later & _ & Htr & Hq & _)]
  end.
  - simpl in Hframe, Hrf, Hwf', Hheld.
    split; [intros h' Hh'; rewrite (Hframe h' Hh');
            by rewrite lookup_insert_ne|].
    split; [done|]. split; [congruence|]. intros _.
    apply (Hheld []); [apply lookup_insert_eq|assumption..].
  - simpl in Hframe, Hrf, Hwf', Hheld.
    split; [intros h' Hh'; rewrite (Hframe h' Hh');
            by rewrite lookup_insert_ne|].
    split; [done|]. split; [congruence|]. intros Hst.
    rewrite (status_rejected _ _ _ _ _ _ Htr Hq) in Hst. discriminate.
Qed.


(** An upload answered with 200 leaves in the shard store, under the hash,
exactly the bytes of the body in the order received; their digest is the
hash. *)
Theorem upload_stores_body now req database r :
  status (upload now req database r) = Some 200 ->
  Shards.blobs (shards (upload now req database r)) !! params_hash req
    = Some (concat (body req)) /\
  toString_hex (rmd160 (sha256 (concat (body req)))) = params_hash req.
Proof.
  intros Hst. split.
  - by apply upload_shards.
  - by destruct (upload_accepted_inv _ _ _ _ Hst)
      as (e & contract & sh & _ & _ & _ & _ & Hhash & _).
Qed.

(** Transfers touch no other shard: whatever its outcome, an upload leaves
the shards under every other hash as they were, and a download leaves the
whole shard store as it was. *)
Theorem transfers_touch_no_other_shard now req database fin r h' :
  (h' <> params_hash req ->
   Shards.blobs (shards (upload now req database r)) !! h'
     = Shards.blobs (shards r) !! h') /\
  shards (download now req fin r) = shards r.
Proof.
  split.
  - intros Hne. by apply upload_shards.
  - unfold download.
    destruct (authorize now (query_token req) (params_hash req) (server r))
      as [err|e]; [reflexivity|].
    destruct (Shards.createReadStream (hash e) (shards r)) as [err|data];
      [reflexivity|].
    by destruct fin.
Qed.

(** What was uploaded is what a later download delivers: after an upload
answered with 200, a download of the same hash with an authorized token,
on a shard store that answers reads, pipes the uploaded body to the client
and reaches the end. *)
Theorem upload_download_round_trip now req database r now2 req2 r2 e2 :
  status (upload now req database r) = Some 200 ->
  shards r2 = shards (upload now req database r) ->
  Shards.read_fault (shards r) = None ->
  authorize now2 (query_token req2) (params_hash req2) (server r2) = Ok e2 ->
  params_hash req2 = params_hash req ->
  trace (download now2 req2 ended r2) =
    trace r2 ++ [setHeader_octet_stream; pipe (concat (body req));
                 emit_shardDownloaded (params_hash req)].
Proof.
  intros Hst Hsh Hrf Hauth Hh.
  destruct (upload_shards now req database r) as (_ & Hrf' & _ & Hbody).
  specialize (Hbody Hst). simpl in Hrf'.
  unfold download. rewrite Hauth.
  apply authorize_Ok in Hauth as (tok & _ & _ & _ & _ & _ & He).
  rewrite He, Hh. unfold Shards.createReadStream.
  rewrite Hsh, Hrf', Hrf. unfold bytes in *. rewrite Hbody. reflexivity.
Qed.

End ServerMore.

(** ** Tokens *)

Section TokenFacts.

Lemma hex_digit_is_hexa n :
  (n < 16)%N -> Utils.is_hexa (hex_digit n) = true.
Proof.
  intros Hn. rewrite <- (N2Nat.id n).
  assert (N.to_nat n < 16)%nat as Hk by lia.
  revert Hk. generalize (N.to_nat n). intros k Hk.
  do 16 (destruct k as [|k]; [reflexivity|]). lia.
Qed.

Lemma hex_of_byte_chars b :
  exists c1 c2,
    hex_of_byte b = String c1 (String c2 EmptyString) /\
    Utils.is_hexa c1 = true /\ Utils.is_hexa c2 = true.
Proof.
  pose proof (Byte.to_N_bounded b) as Hb.
  do 2 eexists. split; [reflexivity|].
  split; apply hex_digit_is_hexa.
  - apply N.Div0.div_lt_upper_bound. lia.
  - apply N.mod_upper_bound. lia.
Qed.

Lemma toString_hex_cons b rest :
  exists c1 c2,
    toString_hex (b :: rest) = String c1 (String c2 (toString_hex rest)) /\
    Utils.is_hexa c1 = true /\ Utils.is_hexa c2 = true.
Proof.
  destruct (hex_of_byte_chars b) as (c1 & c2 & Heq & H1 & H2).
  exists c1, c2. simpl. rewrite Heq. auto.
Qed.

Lemma toString_hex_length buf :
  String.length (toString_hex buf) = (2 * length buf)%nat.
Proof.
  induction buf as [|b rest IH]; [reflexivity|].
  destruct (toString_hex_cons b rest) as (c1 & c2 & -> & _).
  simpl. rewrite IH. lia.
Qed.

Lemma toString_hex_every buf : Utils.every Utils.is_hexa (toString_hex buf) = true.
Proof.
  induction buf as [|b rest IH]; [reflexivity|].
  destruct (toString_hex_cons b rest) as (c1 & c2 & -> & H1 & H2).
  simpl. by rewrite H1, H2, IH.
Qed.

Lemma mint_token_nonempty rnd : rnd <> [] -> mint_token rnd <> "".
Proof.
  destruct rnd as [|b rest]; [done|]. intros _. unfold mint_token.
  destruct (toString_hex_cons b rest) as (c1 & c2 & -> & _). discriminate.
Qed.

(** A token is the lowercase hexadecimal rendering of the random bytes:
two characters a byte, so 64 characters for the 32 bytes the handlers draw,
and a string that [utils.isHexaString] accepts. *)
Theorem token_is_hexadecimal rnd :
  length rnd = 32%nat ->
  String.length (mint_token rnd) = 64%nat /\
  Utils.isHexaString (mint_token rnd) = true.
Proof.
  intros Hlen. unfold mint_token. split.
  - rewrite toString_hex_length, Hlen. reflexivity.
  - unfold Utils.isHexaString. rewrite toString_hex_every.
    destruct rnd as [|b rest]; [discriminate|].
    destruct (toString_hex_cons b rest) as (c1 & c2 & -> & _). reflexivity.
Qed.

End TokenFacts.

(** ** More on the handlers *)

Section RulesMore.
Context `{Contract.Lib}.
Import Rules.

Lemma with_contracts_same node :
  Node.with_contracts (Node.contracts node) node = node.
Proof. by destruct node. Qed.

Lemma accept_authorize_ok now now' token h c srv :
  token <> "" -> h <> "" -> now' < now + Server._ttl srv ->
  Server.authorize now' (Some token) h (Server.accept now token h c srv)
    = Ok {| Server.hash := h; Server.contact := c;
            Server.expires := now + Server._ttl srv |}.
Proof.
  intros Htok Hh Hlive. unfold Server.authorize, Server.accept; simpl.
  unfold Server.truthy.
  destruct (String.eqb_spec token ""); [contradiction|]; simpl.
  rewrite lookup_insert_eq.
  destruct (String.eqb_spec h ""); [contradiction|]; simpl.
  rewrite bool_decide_eq_true_2 by assumption; simpl.
  by rewrite String.eqb_refl.
Qed.

Lemma store_put_failed {V} key (v : V) db e db' :
  store_put key v db = (Some e, db') -> db' = db.
Proof.
  unfold store_put. destruct (put_fault db); intros [= <- <-]; reflexivity.
Qed.

(** The token a handler replies with authorizes the transfer of its shard:
after CONSIGN, RETRIEVE or CLAIM replied, [authorize] accepts the token of
the reply for the hash, with the entry of the requesting contact, at every
time before the time of acceptance plus the time to live. *)
Theorem replied_token_authorizes params h c now now_accept rnd node now' :
  rnd <> [] ->
  now' < now_accept + Server._ttl (Node.server node) ->
  (h <> "" ->
   forall tokens node',
     consign h c now now_accept rnd node = (Reply tokens, node') ->
     tokens = [mint_token rnd] /\
     Server.authorize now' (Some (mint_token rnd)) h (Node.server node')
       = Ok {| Server.hash := h; Server.contact := c;
               Server.expires :=
                 now_accept + Server._ttl (Node.server node) |}) /\
  (h <> "" ->
   forall tokens node',
     retrieve h c now_accept rnd node = (Reply tokens, node') ->
     tokens = [mint_token rnd] /\
     Server.authorize now' (Some (mint_token rnd)) h (Node.server node')
       = Ok {| Server.hash := h; Server.contact := c;
               Server.expires :=
                 now_accept + Server._ttl (Node.server node) |}) /\
  (Contract.data_hash (Contract.from (first_param params)) <> "" ->
   forall descriptor token node',
     claim params c now_accept rnd node = (Reply (descriptor, token), node') ->
     token = mint_token rnd /\
     Server.authorize now' (Some (mint_token rnd))
       (Contract.data_hash (Contract.from (first_param params)))
       (Node.server node')
       = Ok {| Server.hash :=
                 Contract.data_hash (Contract.from (first_param params));
               Server.contact := c;
               Server.expires :=
                 now_accept + Server._ttl (Node.server node) |}).
Proof.
  intros Hrnd Hlive.
  pose proof (mint_token_nonempty rnd Hrnd) as Htok.
  split; [|split].
  - intros Hh tokens node'. unfold consign.
    destruct (store_get _ (Node.contracts node)); [discriminate|].
    case_bool_decide; [discriminate|]. intros [= <- <-]. split; [done|].
    simpl. apply accept_authorize_ok; assumption.
  - intros Hh tokens node'. unfold retrieve.
    destruct (store_get _ (Node.contracts node)); [discriminate|].
    destruct (Shards.exists_ h (Node.shards node)) as [|[|]];
      try discriminate.
    intros [= <- <-]. split; [done|].
    simpl. apply accept_authorize_ok; assumption.
  - intros Hh descriptor token node'. unfold claim.
    destruct (_ && _); [discriminate|].
    destruct (negb _); [discriminate|].
    destruct (store_put _ _ _) as [[err|] db]; [discriminate|].
    intros [= <- <- <-]. split; [done|].
    simpl. apply accept_authorize_ok; assumption.
Qed.

(** A handler that fails changes nothing: when CONSIGN, RETRIEVE, RENEW or
CLAIM ends in an error, the node (contract store, token table, allow-list)
is as it was before the request. *)
Theorem failed_handlers_change_nothing params h c now now_accept rnd node e :
  ((consign h c now now_accept rnd node).1 = Fail e ->
   (consign h c now now_accept rnd node).2 = node) /\
  ((retrieve h c now_accept rnd node).1 = Fail e ->
   (retrieve h c now_accept rnd node).2 = node) /\
  ((renew params c node).1 = Fail e -> (renew params c node).2 = node) /\
  ((claim params c now_accept rnd node).1 = Fail e ->
   (claim params c now_accept rnd node).2 = node).
Proof.
  split; [|split; [|split]].
  - unfold consign.
    destruct (store_get _ (Node.contracts node)); [done|].
    case_bool_decide; [done|discriminate].
  - unfold retrieve.
    destruct (store_get _ (Node.contracts node)); [done|].
    destruct (Shards.exists_ h (Node.shards node)) as [|[|]];
      [done|discriminate|done].
  - unfold renew.
    destruct (negb _); [done|].
    destruct (store_get _ (Node.contracts node)); [done|].
    destruct (rejected _); [done|].
    destruct (store_put _ _ _) as [[err|] db] eqn:Hput; [|discriminate].
    intros _. simpl. apply store_put_failed in Hput as ->.
    apply with_contracts_same.
  - unfold claim.
    destruct (_ && _); [done|].
    destruct (negb _); [done|].
    destruct (store_put _ _ _) as [[err|] db] eqn:Hput; [|discriminate].
    intros _. simpl. apply store_put_failed in Hput as ->.
    apply with_contracts_same.
Qed.

(** CLAIM persists what it checked: when CLAIM replies, the descriptor of
the reply is the contract received with [payment_destination], [farmer_id],
[farmer_hd_key] and [farmer_hd_index] filled in from the node and no other
field changed, then signed as farmer with the key of the node; it passed
[isValid] and [isComplete] in that state, and the contract store holds that
same descriptor under the key made of the [data_hash] and the
[renter_hd_key] of the descriptor received, whatever the key of the
requesting contact. *)
Theorem claim_persists_checked_contract params c now_accept rnd node
    descriptor token node' :
  claim params c now_accept rnd node = (Reply (descriptor, token), node') ->
  let received := Contract.from (first_param params) in
  exists filled,
    (Contract.payment_destination filled = "?" /\
     Contract.farmer_id filled = Node.identity node /\
     Contract.farmer_hd_key filled = xpub (Node.contact node) /\
     Contract.farmer_hd_index filled = index (Node.contact node)) /\
    (Contract.data_hash filled = Contract.data_hash received /\
     Contract.data_size filled = Contract.data_size received /\
     Contract.renter_id filled = Contract.renter_id received /\
     Contract.renter_hd_key filled = Contract.renter_hd_key received /\
     Contract.renter_hd_index filled = Contract.renter_hd_index received /\
     Contract.renter_signature filled = Contract.renter_signature received /\
     Contract.farmer_signature filled = Contract.farmer_signature received /\
     Contract.store_begin filled = Contract.store_begin received /\
     Contract.store_end filled = Contract.store_end received /\
     Contract.audit_leaves filled = Contract.audit_leaves received /\
     Contract.version filled = Contract.version received) /\
    descriptor =
      Contract.Obj
        (Contract.sign Contract.farmer (Node.privateKey node) filled) /\
    Contract.isValid
      (Contract.sign Contract.farmer (Node.privateKey node) filled) &&
    Contract.isComplete
      (Contract.sign Contract.farmer (Node.privateKey node) filled) = true /\
    entries (Node.contracts node')
      !! contract_key (Contract.data_hash received)
           (Contract.renter_hd_key received)
    = Some descriptor.
Proof.
  unfold claim.
  destruct (_ && _); [discriminate|].
  destruct (Contract.isValid _ && Contract.isComplete _) eqn:Hok;
    [|discriminate]. simpl.
  unfold store_put. destruct (put_fault (Node.contracts node));
    [discriminate|].
  intros [= <- <- <-]. simpl.
  eexists. split; [|split; [|split; [reflexivity|split; [exact Hok|]]]].
  - repeat split.
  - repeat split.
  - apply lookup_insert_eq.
Qed.

(** MIRROR answers with an acknowledgement exactly when the contract of the
requester for the hash is in the store, the shard can be read, and the
target answered the upload of the shard with status 200; the
acknowledgement is the body of that answer. Any other status of the target
becomes an error whose message is the body. *)
Theorem mirror_acknowledged_iff h token target c uploader node ack :
  (mirror h token target c uploader node = Some (Reply [ack]) <->
   (exists desc,
      store_get (contract_key h (xpub c.2)) (Node.contracts node)
        = Ok desc) /\
   exists shard,
     Shards.createReadStream h (Node.shards node) = Ok shard /\
     uploader target h token shard = uploaded 200 ack) /\
  (forall desc shard statusCode,
     store_get (contract_key h (xpub c.2)) (Node.contracts node) = Ok desc ->
     Shards.createReadStream h (Node.shards node) = Ok shard ->
     uploader target h token shard = uploaded statusCode ack ->
     statusCode <> 200 ->
     mirror h token target c uploader node = Some (Fail (Error ack))).
Proof.
  unfold mirror. split.
  - destruct (store_get _ (Node.contracts node)) as [e|desc].
    { split; [discriminate|]. intros [[desc [=]] _]. }
    destruct (Shards.createReadStream h (Node.shards node)) as [e|shard].
    { split; [discriminate|]. intros [_ (shard & [=] & _)]. }
    destruct (uploader target h token shard) as [code body| |] eqn:Hup.
    + destruct (Z.eqb_spec code 200) as [->|Hne]; simpl.
      * split.
        -- intros [= ->]. split; [eauto|]. eauto.
        -- intros [_ (shard' & [= <-] & Hup')].
           rewrite Hup in Hup'. by injection Hup' as ->.
      * split; [discriminate|].
        intros [_ (shard' & [= <-] & Hup')].
        rewrite Hup in Hup'. injection Hup' as -> _. contradiction.
    + split; [discriminate|].
      intros [_ (shard' & [= <-] & Hup')]. congruence.
    + split; [discriminate|].
      intros [_ (shard' & [= <-] & Hup')]. congruence.
  - intros desc shard code -> -> -> Hne.
    destruct (Z.eqb_spec code 200); [contradiction|]. reflexivity.
Qed.

End RulesMore.

(** ** More on the node *)

Section NodeMore.
Context `{Contract.Lib}.
Import Node.

(** A published descriptor takes offers until its stream ends: after
[publishShardDescriptor], whether or not the publication itself succeeded,
an OFFER of a valid and complete descriptor with the same [data_hash] is
queued on the stream just created; once the listener for the end of the
stream has run, the same OFFER is rejected as closed. *)
Theorem published_descriptor_takes_offers getTopicString new_OfferStream
    descriptor published node params c :
  let node' :=
    (publishShardDescriptor getTopicString new_OfferStream descriptor
       published node).2 in
  let key := Contract.data_hash (Contract.from descriptor) in
  let offered := Contract.from (first_param params) in
  Contract.isValid offered && Contract.isComplete offered = true ->
  Contract.data_hash offered = key ->
  Rules.offer params c node' =
    Rules.offer_queue key (new_OfferStream (Contract.from descriptor)) c
      offered /\
  Rules.offer params c (offerStream_closed key node') =
    Rules.offer_fail (Error "Offers for descriptor are closed").
Proof.
  intros node' key offered Hok Hkey. subst node' offered.
  unfold Rules.offer. rewrite Hok, Hkey. simpl. subst key.
  rewrite lookup_insert_eq, lookup_delete_eq. split; reflexivity.
Qed.

Lemma capacity_topic_inj a b : "0c" +:+ a = "0c" +:+ b -> a = b.
Proof. apply (inj (String.app "0c")). Qed.

(** Capacity announcements reach their subscribers and no one else: the
topic [publishCapacityAnnouncement] publishes on is among the topics of
[subscribeCapacityAnnouncement] exactly when the code is among the codes
subscribed to, and it is never a topic of [subscribeShardDescriptor]. *)
Theorem capacity_topics_match code codes descriptorCodes data node :
  let t := topic (publishCapacityAnnouncement code data node).1 in
  (t ∈ subscribeCapacityAnnouncement_topics codes <-> code ∈ codes) /\
  t ∉ subscribeShardDescriptor_topics descriptorCodes.
Proof.
  simpl. unfold subscribeCapacityAnnouncement_topics,
    subscribeShardDescriptor_topics. split.
  - rewrite list_elem_of_fmap. split.
    + intros (code' & Heq%capacity_topic_inj & Hin). by subst.
    + intros Hin. eauto.
  - rewrite list_elem_of_fmap. intros (code' & Heq & _).
    unfold String.app in Heq. simpl in Heq. discriminate.
Qed.

Lemma publish_claims code data node :
  claims (publishCapacityAnnouncement code data node).2 =
    if bool_decide (0 < available data) then claims node else [].
Proof. reflexivity. Qed.

Lemma announcements_claims run : forall node,
  claims (announcements run node) =
    if bool_decide (Forall (fun a => 0 < available a.2) run)
    then claims node else [].
Proof.
  unfold announcements.
  induction run as [|a run IH]; intros node; cbn [foldl].
  - by rewrite bool_decide_eq_true_2.
  - rewrite IH, publish_claims.
    destruct (decide (0 < available a.2)) as [Ha|Ha].
    + rewrite (bool_decide_eq_true_2 _ Ha).
      destruct (decide (Forall (fun a => 0 < available a.2) run)) as [Hr|Hr].
      * rewrite !bool_decide_eq_true_2; [done|by constructor|done].
      * rewrite !bool_decide_eq_false_2; [done| |done].
        intros Hall. by apply Forall_cons in Hall as [_ ?].
    + rewrite (bool_decide_eq_false_2 _ Ha).
      rewrite (bool_decide_eq_false_2 (Forall _ (a :: run))).
      * by case_bool_decide.
      * intros Hall. by apply Forall_cons in Hall as [? _].
Qed.

(** The allow-list is never restored: after a run of capacity
announcements the allow-list is the one before the run when every
announcement had capacity available, and empty otherwise, whatever was
announced after the announcement without capacity; a CLAIM is then
rejected. *)
Theorem allow_list_is_not_restored run node :
  claims (announcements run node) =
    (if bool_decide (Forall (fun a => 0 < available a.2) run)
     then claims node else []) /\
  (~ Forall (fun a => 0 < available a.2) run ->
   forall params c now_accept rnd,
     (Rules.claim params c now_accept rnd (announcements run node)).1
       = Fail (Error "Currently rejecting claims")).
Proof.
  split; [apply announcements_claims|].
  intros Hnot params c now_accept rnd. unfold Rules.claim.
  rewrite announcements_claims, (bool_decide_eq_false_2 _ Hnot).
  reflexivity.
Qed.

(** A contract acquired through an offer admits the renter: after
[offerShardAllocation] succeeded with a peer, on a contract store that
answers reads, a CONSIGN of that peer for the shard of the contract fails
as expired when [now > store_end] of the contract and is answered with a
token otherwise. *)
Theorem acquired_contract_admits_consign peer result node contract node'
    now now_accept rnd :
  offerShardAllocation peer (Ok result) node = (Ok contract, node') ->
  get_fault (contracts node) = None ->
  (Rules.consign (Contract.data_hash contract) peer now now_accept rnd
     node').1 =
    if bool_decide (Contract.store_end contract < now)
    then Fail (Error "Contract has expired")
    else Reply [mint_token rnd].
Proof.
  unfold offerShardAllocation.
  destruct (negb _); [discriminate|].
  unfold store_put. destruct (put_fault (contracts node)); [discriminate|].
  intros [= <- <-] Hgf.
  unfold Rules.consign, store_get. simpl.
  rewrite Hgf, lookup_insert_eq. by case_bool_decide.
Qed.

Lemma announce_fold data topics : forall pubs node,
  let res :=
    foldl (fun acc topic =>
             let '(pub, node) :=
               publishCapacityAnnouncement topic data acc.2 in
             (acc.1 ++ [pub], node))
          (pubs, node) topics in
  map topic res.1 =
    map topic pubs ++ subscribeCapacityAnnouncement_topics topics /\
  (Forall (fun pub => contents pub = (data, (identity node, contact node)))
     pubs ->
   Forall (fun pub => contents pub = (data, (identity node, contact node)))
     res.1) /\
  claims res.2 =
    (if bool_decide (topics = [] \/ 0 < available data)
     then claims node else []).
Proof.
  induction topics as [|t topics IH]; intros pubs node; cbn [foldl].
  - cbn [fst snd]. split; [|split].
    + unfold subscribeCapacityAnnouncement_topics. simpl.
      by rewrite app_nil_r.
    + done.
    + rewrite bool_decide_eq_true_2; auto.
  - match goal with
    | |- context [foldl _ ?acc topics] =>
        change acc with
          (pubs ++ [(publishCapacityAnnouncement t data node).1],
           (publishCapacityAnnouncement t data node).2)
    end.
    destruct (IH (pubs ++ [(publishCapacityAnnouncement t data node).1])
                (publishCapacityAnnouncement t data node).2)
      as (Htop & Hcont & Hclaims).
    split; [|split].
    + rewrite Htop, map_app, <- app_assoc. reflexivity.
    + intros Hall. apply Hcont. apply Forall_app. split; [exact Hall|].
      constructor; [reflexivity|constructor].
    + rewrite Hclaims, publish_claims.
      destruct (decide (0 < available data)) as [Ha|Ha].
      * rewrite !bool_decide_eq_true_2; auto.
      * rewrite (bool_decide_eq_false_2 (0 < available data)) by done.
        rewrite (bool_decide_eq_false_2 (t :: topics = [] \/ _))
          by (intros [?|?]; done).
        by case_bool_decide.
Qed.

(** [announceCapacity] publishes one announcement for each advertised
topic, in order and with the measured capacity, and empties the allow-list
exactly when it published at least one announcement and no capacity is
available; when the capacity cannot be measured it publishes nothing and
changes nothing. *)
Theorem announceCapacity_outcome topics size node :
  let res := Profiles.announceCapacity topics size node in
  (forall e, size = Err e -> res = ([], node)) /\
  (forall data,
     size = Ok data ->
     map topic res.1 = subscribeCapacityAnnouncement_topics topics /\
     Forall (fun pub => contents pub = (data, (identity node, contact node)))
       res.1 /\
     claims res.2 =
       (if bool_decide (topics = [] \/ 0 < available data)
        then claims node else [])).
Proof.
  intros res. subst res. split.
  - intros e ->. reflexivity.
  - intros data ->. unfold Profiles.announceCapacity.
    destruct (announce_fold data topics [] node) as (Htop & Hcont & Hclaims).
    split; [exact Htop|]. split; [apply Hcont; constructor|exact Hclaims].
Qed.

End NodeMore.

(** ** Erasure parameters *)

Section UtilsFacts.
Import Utils.

(** The loop that pads: with fuel for its rounds it stops at the least
padding from the current one on that makes the length a multiple of the
number of shards. *)
Lemma pad_spec n fuel : forall p,
  0 < shards p ->
  0 <= length_ n p ->
  length_ n p + (- length_ n p) mod shards p <= MAX_SAFE_INTEGER ->
  (Z.to_nat ((- length_ n p) mod shards p) < fuel)%nat ->
  pad fuel n p =
    Some {| shards := shards p; parity := parity p;
            padding := padding p + (- length_ n p) mod shards p |}.
Proof.
  induction fuel as [|fuel IH]; intros p Hs Hpos Hmax Hfuel; [lia|].
  cbn [pad]. unfold size_isSafeInteger.
  pose proof (Z.mod_pos_bound (- length_ n p) (shards p) Hs) as Hk.
  pose proof (Z.mod_pos_bound (length_ n p) (shards p) Hs) as Hm0.
  assert (Z.abs (length_ n p / shards p) <= MAX_SAFE_INTEGER) as Hmag.
  { rewrite Z.abs_eq by (apply Z.div_pos; lia).
    assert (length_ n p / shards p <= length_ n p)
      by (apply Z.div_le_upper_bound; nia).
    lia. }
  apply Z.leb_le in Hmag. rewrite Hmag, andb_true_r.
  destruct (Z.eqb_spec (length_ n p mod shards p) 0) as [Hz|Hnz].
  - rewrite Z.mod_opp_l_z by lia.
    destruct p; simpl. do 2 f_equal. lia.
  - rewrite Z.mod_opp_l_nz in * by lia.
    set (p' := {| shards := shards p; parity := parity p;
                  padding := padding p + 1 |}).
    assert ((- length_ n p') mod shards p'
            = shards p - length_ n p mod shards p - 1) as Hk'.
    { subst p'. unfold length_ in *. simpl.
      pose proof (Z.mod_pos_bound (n + padding p) (shards p) Hs) as Hm.
      replace (- (n + (padding p + 1)))
        with (- (n + padding p) + (-1)) by lia.
      rewrite <- Zplus_mod_idemp_l.
      rewrite Z.mod_opp_l_nz by lia.
      replace (shards p - (n + padding p) mod shards p + -1)
        with (shards p - (n + padding p) mod shards p - 1) by lia.
      apply Z.mod_small. lia. }
    rewrite (IH p'); subst p'; simpl in *.
    + rewrite Hk'. unfold length_ in *. simpl. do 2 f_equal. lia.
    + assumption.
    + unfold length_ in *. simpl. lia.
    + rewrite Hk'. unfold length_ in *. simpl. lia.
    + rewrite Hk'. lia.
Qed.

(** [getErasureParameters] on a byte count [n] that is a safe integer: up
to 8 MiB it answers 2 shards, 1 parity shard and no padding, also when [n]
is odd; above, 4, 8 or 16 shards as [n] is at most 64 MiB, at most 512 MiB
or larger, half as many parity shards, and the least padding that makes
the padded length a multiple of the number of shards. *)
Theorem getErasureParameters_spec fuel n :
  (16 <= fuel)%nat ->
  n <= MAX_SAFE_INTEGER - 16 ->
  exists p,
    getErasureParameters fuel n = Some p /\
    shards p =
      (if decide (n <= 8388608) then 2
       else if decide (n <= 67108864) then 4
       else if decide (n <= 536870912) then 8 else 16) /\
    parity p * 2 = shards p /\
    (n <= 8388608 -> padding p = 0) /\
    (8388608 < n ->
     0 <= padding p < shards p /\ (n + padding p) mod shards p = 0).
Proof.
  intros Hfuel Hn.
  assert (MAX_SAFE_INTEGER = 9007199254740991) as HM by reflexivity.
  unfold getErasureParameters.
  change (8 * (1024 * 1024)) with 8388608.
  destruct fuel as [|f1]; [lia|].
  cbn [accumulate shards parity padding].
  change (negb (2 =? 16)) with true. change (negb (1 =? 8)) with true.
  change (2 * 2) with 4. change (1 * 2) with 2.
  change (8388608 * 8) with 67108864.
  rewrite !andb_true_r.
  destruct (Z.ltb_spec 8388608 n) as [H1|H1].
  2:{ eexists. split; [reflexivity|]. cbn [shards parity padding].
      rewrite decide_True by lia. repeat split; lia. }
  set (pad1 := (- (n + 0)) mod 4).
  assert (0 <= pad1 < 4 /\ (n + pad1) mod 4 = 0) as [Hp1 Hd1].
  { subst pad1. Z.div_mod_to_equations. lia. }
  rewrite pad_spec; unfold length_; cbn [shards parity padding];
    fold pad1; try lia.
  replace (0 + pad1) with pad1 by lia. clearbody pad1.
  destruct f1 as [|f2]; [lia|].
  cbn [accumulate shards parity padding].
  change (negb (4 =? 16)) with true. change (negb (2 =? 8)) with true.
  change (4 * 2) with 8. change (2 * 2) with 4.
  change (67108864 * 8) with 536870912.
  rewrite !andb_true_r.
  destruct (Z.ltb_spec 67108864 n) as [H2|H2].
  2:{ eexists. split; [reflexivity|]. cbn [shards parity padding].
      rewrite decide_False by lia. rewrite decide_True by lia.
      repeat split; lia. }
  set (k2 := (- (n + pad1)) mod 8).
  assert (0 <= pad1 + k2 < 8 /\ (n + (pad1 + k2)) mod 8 = 0 /\ 0 <= k2 < 8)
    as (Hp2 & Hd2 & Hk2).
  { subst k2. Z.div_mod_to_equations. lia. }
  rewrite pad_spec; unfold length_; cbn [shards parity padding];
    fold k2; try lia.
  clearbody k2. set (pad2 := pad1 + k2) in *. clearbody pad2.
  destruct f2 as [|f3]; [lia|].
  cbn [accumulate shards parity padding].
  change (negb (8 =? 16)) with true. change (negb (4 =? 8)) with true.
  change (8 * 2) with 16. change (4 * 2) with 8.
  rewrite !andb_true_r.
  destruct (Z.ltb_spec 536870912 n) as [H3|H3].
  2:{ eexists. split; [reflexivity|]. cbn [shards parity padding].
      rewrite !decide_False by lia. rewrite decide_True by lia.
      repeat split; lia. }
  set (k3 := (- (n + pad2)) mod 16).
  assert (0 <= pad2 + k3 < 16 /\ (n + (pad2 + k3)) mod 16 = 0 /\
          0 <= k3 <= 8) as (Hp3 & Hd3 & Hk3).
  { subst k3. Z.div_mod_to_equations. lia. }
  rewrite pad_spec; unfold length_; cbn [shards parity padding];
    fold k3; try lia.
  clearbody k3.
  destruct f3 as [|f4]; [lia|].
  cbn [accumulate shards parity padding].
  change (negb (16 =? 16)) with false.
  rewrite andb_false_r. cbn [andb].
  eexists. split; [reflexivity|]. cbn [shards parity padding].
  rewrite !decide_False by lia. repeat split; lia.
Qed.

End UtilsFacts.

(** ** The shard reaper *)

Section ReaperFacts.
Context `{Contract.Lib}.
Import Profiles.

Lemma reap_fold time rs : forall node,
  put_fault (Node.contracts node) = None ->
  Shards.write_fault (Node.shards node) = None ->
  let node' := foldl (reap_entry time) node rs in
  (forall key,
     entries (Node.contracts node') !! key =
       if decide (Exists (fun kv : string * Contract.value =>
                    kv.1 = key /\
                    Contract.store_end (Contract.from kv.2)
                      < time + ms_24h) rs)
       then None else entries (Node.contracts node) !! key) /\
  (forall h,
     Shards.blobs (Node.shards node') !! h =
       if decide (Exists (fun kv : string * Contract.value =>
                    Contract.data_hash (Contract.from kv.2) = h /\
                    Contract.store_end (Contract.from kv.2)
                      < time + ms_24h) rs)
       then None else Shards.blobs (Node.shards node) !! h).
Proof.
  induction rs as [|[k v] rs IH]; intros node Hp Hw; cbn [foldl].
  - split; intros x.
    + rewrite decide_False; [done|]. by intros ?%Exists_nil.
    + rewrite decide_False; [done|]. by intros ?%Exists_nil.
  - assert ((put_fault (Node.contracts (reap_entry time node (k, v))) = None /\
             Shards.write_fault (Node.shards (reap_entry time node (k, v)))
               = None) /\
            (forall key,
               entries (Node.contracts (reap_entry time node (k, v))) !! key =
                 if decide (k = key /\
                            Contract.store_end (Contract.from v)
                              < time + ms_24h)
                 then None else entries (Node.contracts node) !! key) /\
            (forall h,
               Shards.blobs (Node.shards (reap_entry time node (k, v))) !! h =
                 if decide (Contract.data_hash (Contract.from v) = h /\
                            Contract.store_end (Contract.from v)
                              < time + ms_24h)
                 then None else Shards.blobs (Node.shards node) !! h))
      as ((Hp1 & Hw1) & Hc1 & Hs1).
    { unfold reap_entry, Shards.unlink_checked, store_del.
      case_bool_decide as Hstale.
      - rewrite Hw, Hp. simpl. split; [done|]. split.
        + intros key. destruct (decide (k = key)) as [->|Hne].
          * rewrite decide_True by done. apply lookup_delete_eq.
          * rewrite decide_False by tauto. by apply lookup_delete_ne.
        + intros h.
          destruct (decide (Contract.data_hash (Contract.from v) = h))
            as [->|Hne].
          * rewrite decide_True by done. apply lookup_delete_eq.
          * rewrite decide_False by tauto. by apply lookup_delete_ne.
      - split; [done|]. split; intros x; rewrite decide_False; tauto. }
    destruct (IH _ Hp1 Hw1) as (Hc2 & Hs2).
    split.
    + intros key. rewrite Hc2, Hc1.
      repeat case_decide; try done;
        rewrite Exists_cons in *; simpl in *; tauto.
    + intros h. rewrite Hs2, Hs1.
      repeat case_decide; try done;
        rewrite Exists_cons in *; simpl in *; tauto.
Qed.

(** Whatever the stores answer, the listener adds no contract and removes
    none but those of stale entries it was handed. *)
Lemma reap_fold_keeps time rs : forall node,
  let node' := foldl (reap_entry time) node rs in
  (forall key value,
     entries (Node.contracts node') !! key = Some value ->
     entries (Node.contracts node) !! key = Some value) /\
  (forall key value,
     entries (Node.contracts node) !! key = Some value ->
     (forall v', (key, v') ∈ rs ->
                 ~ Contract.store_end (Contract.from v') < time + ms_24h) ->
     entries (Node.contracts node') !! key = Some value).
Proof.
  induction rs as [|[k v] rs IH]; intros node; cbn [foldl].
  - split; auto.
  - destruct (IH (reap_entry time node (k, v))) as (Hsub & Hkeep).
    assert (entries (Node.contracts (reap_entry time node (k, v)))
              = entries (Node.contracts node) \/
            (Contract.store_end (Contract.from v) < time + ms_24h /\
             entries (Node.contracts (reap_entry time node (k, v)))
               = delete k (entries (Node.contracts node)))) as Hone.
    { unfold reap_entry, Shards.unlink_checked, store_del.
      case_bool_decide as Hstale; [|by left].
      destruct (Shards.write_fault (Node.shards node)); [by left|].
      simpl. destruct (put_fault (Node.contracts node)); [by left|].
      right. by split. }
    split.
    + intros key value Hl. apply Hsub in Hl.
      destruct Hone as [Heq|[_ Heq]]; rewrite Heq in Hl; [exact Hl|].
      by apply lookup_delete_Some in Hl as [_ Hl].
    + intros key value Hl Hfresh. apply Hkeep.
      * destruct Hone as [Heq|[Hstale Heq]]; rewrite Heq; [exact Hl|].
        rewrite lookup_delete_ne; [exact Hl|].
        intros ->. apply (Hfresh v); [|exact Hstale].
        apply elem_of_cons. by left.
      * intros v' Hin. apply Hfresh. apply elem_of_cons. by right.
Qed.

Lemma emitted_nothing (emitted : string -> bool)
    (l : list (string * Contract.value)) :
  (forall key, emitted key = false) ->
  filter (fun kv : string * Contract.value => emitted kv.1 = true) l = [].
Proof.
  intros Hno. induction l as [|[k v] l IH]; [reflexivity|].
  rewrite filter_cons. simpl.
  destruct (decide (emitted k = true)) as [Hk|_]; [|exact IH].
  rewrite Hno in Hk. discriminate.
Qed.

(** A shard store that refuses to unlink stops every deletion. *)
Lemma reap_fold_refused time rs node e :
  Shards.write_fault (Node.shards node) = Some e ->
  foldl (reap_entry time) node rs = node.
Proof.
  intros Hw. induction rs as [|[k v] rs IH]; [reflexivity|].
  cbn [foldl].
  replace (reap_entry time node (k, v)) with node; [exact IH|].
  unfold reap_entry, Shards.unlink_checked. rewrite Hw.
  by case_bool_decide.
Qed.

(** With stores that answer every call, [reapExpiredShards] ends without
error and removes exactly the contracts whose [store_end] is less than 24
hours after [time], among them contracts that have not expired yet; it
unlinks the shard of every contract it removes, also when a contract it
keeps is for the same shard, and no other shard. *)
Theorem reapExpiredShards_outcome emitted time node :
  healthy node ->
  let res := reapExpiredShards emitted time node in
  res.1 = None /\
  (forall key,
     entries (Node.contracts res.2) !! key =
       match entries (Node.contracts node) !! key with
       | Some value =>
           if decide (Contract.store_end (Contract.from value)
                        < time + ms_24h)
           then None else Some value
       | None => None
       end) /\
  (forall h,
     (exists key value,
        entries (Node.contracts node) !! key = Some value /\
        Contract.data_hash (Contract.from value) = h /\
        Contract.store_end (Contract.from value) < time + ms_24h) ->
     Shards.blobs (Node.shards res.2) !! h = None) /\
  (forall h,
     (forall key value,
        entries (Node.contracts node) !! key = Some value ->
        Contract.data_hash (Contract.from value) = h ->
        ~ Contract.store_end (Contract.from value) < time + ms_24h) ->
     Shards.blobs (Node.shards res.2) !! h
       = Shards.blobs (Node.shards node) !! h).
Proof.
  intros Hh res. subst res. unfold reapExpiredShards, store_createReadStream.
  destruct Hh as (Hg & Hp & Hw). rewrite Hg. cbn [fst snd].
  destruct (reap_fold time (map_to_list (entries (Node.contracts node)))
              node Hp Hw) as (Hc & Hs).
  split; [reflexivity|]. split; [|split].
  - intros key. rewrite Hc.
    destruct (entries (Node.contracts node) !! key) as [value|] eqn:Hl.
    + destruct (decide (Contract.store_end (Contract.from value)
                          < time + ms_24h)) as [Hstale|Hfresh].
      * rewrite decide_True; [done|].
        apply Exists_exists. exists (key, value).
        split; [by apply elem_of_map_to_list|done].
      * rewrite decide_False; [done|].
        intros ([k v] & Hin & Hk & Hstale)%Exists_exists.
        apply elem_of_map_to_list in Hin. simpl in *. subst k.
        rewrite Hl in Hin. injection Hin as ->. contradiction.
    + rewrite decide_False; [done|].
      intros ([k v] & Hin & Hk & Hstale)%Exists_exists.
      apply elem_of_map_to_list in Hin. simpl in *. subst k. congruence.
  - intros h (key & value & Hl & Hd & Hstale). rewrite Hs.
    rewrite decide_True; [done|].
    apply Exists_exists. exists (key, value).
    split; [by apply elem_of_map_to_list|done].
  - intros h Hnone. rewrite Hs.
    rewrite decide_False; [done|].
    intros ([k v] & Hin & Hd & Hstale)%Exists_exists.
    apply elem_of_map_to_list in Hin. simpl in *.
    exact (Hnone k v Hin Hd Hstale).
Qed.

(** The reaper when a store fails. With a contract store whose read
stream emits ['error'], the error is handed to the callback; the entries
emitted before the error were handled: the stale ones among them lost
their contract and their shard, when the stores take the deletions; no
contract is added, and every contract that is not stale or whose entry was
not emitted is kept; nothing changes when the error comes before the first
entry. With a shard store that refuses to unlink, nothing is deleted, and
the reaper ends without error when the read stream does. *)
Theorem reapExpiredShards_faults emitted time node :
  (forall e,
     get_fault (Node.contracts node) = Some e ->
     let res := reapExpiredShards emitted time node in
     res.1 = Some (UpstreamError e) /\
     (forall key value,
        entries (Node.contracts res.2) !! key = Some value ->
        entries (Node.contracts node) !! key = Some value) /\
     (forall key value,
        entries (Node.contracts node) !! key = Some value ->
        ~ Contract.store_end (Contract.from value) < time + ms_24h \/
        emitted key = false ->
        entries (Node.contracts res.2) !! key = Some value) /\
     (put_fault (Node.contracts node) = None ->
      Shards.write_fault (Node.shards node) = None ->
      forall key value,
        entries (Node.contracts node) !! key = Some value ->
        emitted key = true ->
        Contract.store_end (Contract.from value) < time + ms_24h ->
        entries (Node.contracts res.2) !! key = None /\
        Shards.blobs (Node.shards res.2)
          !! Contract.data_hash (Contract.from value) = None) /\
     ((forall key, emitted key = false) -> res.2 = node)) /\
  (forall e,
     Shards.write_fault (Node.shards node) = Some e ->
     (reapExpiredShards emitted time node).2 = node /\
     (get_fault (Node.contracts node) = None ->
      reapExpiredShards emitted time node = (None, node))).
Proof.
  unfold reapExpiredShards, store_createReadStream. split.
  - intros e ->. cbn [fst snd].
    set (rs := filter (fun kv : string * Contract.value => emitted kv.1 = true)
                 (map_to_list (entries (Node.contracts node)))).
    destruct (reap_fold_keeps time rs node) as (Hsub & Hkeep).
    split; [reflexivity|]. split; [exact Hsub|]. split; [|split].
    + intros key value Hl Hwhy. apply Hkeep; [exact Hl|].
      intros v' Hin Hstale.
      apply list_elem_of_filter in Hin as [Hem Hin]. simpl in Hem.
      apply elem_of_map_to_list in Hin.
      rewrite Hl in Hin. injection Hin as ->.
      destruct Hwhy as [Hfresh|Hno]; [contradiction|congruence].
    + intros Hp Hw key value Hl Hem Hstale.
      destruct (reap_fold time rs node Hp Hw) as (Hc & Hs).
      rewrite Hc, Hs.
      assert ((key, value) ∈ rs) as Hin.
      { apply list_elem_of_filter. split; [exact Hem|].
        by apply elem_of_map_to_list. }
      rewrite !decide_True; [done| |];
        apply Exists_exists; exists (key, value); by split.
    + intros Hno. subst rs. by rewrite (emitted_nothing _ _ Hno).
  - intros e Hw. split.
    + destruct (get_fault (Node.contracts node)); cbn [snd];
        by apply reap_fold_refused with (e := e).
    + intros ->. f_equal. by apply reap_fold_refused with (e := e).
Qed.

End ReaperFacts.

(** ** The further properties on examples *)

(** The token ["t"], accepted at time 0, authorizes the shard at time 5. *)
Lemma accept_authorize_iff_witness :
  Server.authorize 5 (Some "t") "6869" Fixture.server1
  = Ok {| Server.hash := "6869"; Server.contact := Fixture.renter_contact;
          Server.expires := 1800000 |}.
Proof.
  apply (proj2 (accept_authorize_iff 0 5 "t" "6869" "6869"
                  Fixture.renter_contact Fixture.server0 _)).
  repeat split; try done.
Defined.

(** Once rejected, the token ["t"] is not accepted any more. *)
Lemma reject_revokes_only_token_witness :
  Server.authorize 5 (Some "t") "6869" (Server.reject "t" Fixture.server1)
  = Err (AssertionError "The token is not accepted").
Proof.
  apply (proj1 (reject_revokes_only_token 0 5 "t" "u" "6869" "6869"
                  Fixture.renter_contact Fixture.server1)).
  discriminate.
Defined.

(** A sweep at time 5 keeps the token ["t"] usable at time 10. *)
Lemma reap_keeps_live_tokens_witness :
  Server.authorize 10 (Some "t") "6869"
    (Server._reapExpiredTokens 5 Fixture.server1)
  = Ok {| Server.hash := "6869"; Server.contact := Fixture.renter_contact;
          Server.expires := 1800000 |}.
Proof.
  apply (proj2 (reap_keeps_live_tokens 5 10 (Some "t") "6869"
                  Fixture.server1 _ ltac:(lia))).
  vm_compute. reflexivity.
Defined.


(** After the upload of its two chunks the store holds the shard. *)
Lemma upload_stores_body_witness :
  Shards.blobs
    (Server.shards
       (@Server.upload Fixture.hashes 5 Fixture.upload_hi Fixture.database0
          (Fixture.run_on Fixture.server1 (Fixture.disk ∅))))
    !! "6869"
  = Some Fixture.shard.
Proof.
  apply (proj1 (@upload_stores_body Fixture.hashes 5 Fixture.upload_hi
                  Fixture.database0
                  (Fixture.run_on Fixture.server1 (Fixture.disk ∅))
                  ltac:(vm_compute; reflexivity))).
Defined.

(** The refused upload leaves the shard under another hash alone. *)
Lemma transfers_touch_no_other_shard_witness :
  Shards.blobs
    (Server.shards
       (@Server.upload Fixture.hashes 5 Fixture.upload_other
          Fixture.database0
          (Fixture.run_on Fixture.server1
             (Fixture.disk {[ "aa" := Fixture.shard ]}))))
    !! "aa"
  = Some Fixture.shard.
Proof.
  rewrite (proj1 (@transfers_touch_no_other_shard Fixture.hashes 5
                    Fixture.upload_other Fixture.database0 Server.ended
                    (Fixture.run_on Fixture.server1
                       (Fixture.disk {[ "aa" := Fixture.shard ]})) "aa")).
  - vm_compute. reflexivity.
  - discriminate.
Defined.

(** The shard uploaded in two chunks is downloaded whole with the token
["u"]. *)
Lemma upload_download_round_trip_witness :
  let uploaded :=
    @Server.upload Fixture.hashes 5 Fixture.upload_hi Fixture.database0
      (Fixture.run_on Fixture.server1 (Fixture.disk ∅)) in
  Server.trace
    (Server.download 7 Fixture.download_hi Server.ended
       (Fixture.run_on
          (Server.accept 6 "u" "6869" Fixture.renter_contact
             (Server.server uploaded))
          (Server.shards uploaded)))
  = [Server.setHeader_octet_stream; Server.pipe Fixture.shard;
     Server.emit_shardDownloaded "6869"].
Proof.
  intros uploaded.
  apply (@upload_download_round_trip Fixture.hashes 5 Fixture.upload_hi
           Fixture.database0
           (Fixture.run_on Fixture.server1 (Fixture.disk ∅)) 7
           Fixture.download_hi
           (Fixture.run_on
              (Server.accept 6 "u" "6869" Fixture.renter_contact
                 (Server.server uploaded))
              (Server.shards uploaded))
           {| Server.hash := "6869"; Server.contact := Fixture.renter_contact;
              Server.expires := 1800006 |}).
  - vm_compute. reflexivity.
  - reflexivity.
  - reflexivity.
  - vm_compute. reflexivity.
  - reflexivity.
Defined.

(** The token made of 32 bytes ["a"]. *)
Lemma token_is_hexadecimal_witness :
  String.length (mint_token (replicate 32 "a"%byte)) = 64%nat /\
  Utils.isHexaString (mint_token (replicate 32 "a"%byte)) = true.
Proof. apply token_is_hexadecimal. reflexivity. Defined.

(** The token of a CONSIGN at time 501 authorizes the shard at time 600. *)
Lemma replied_token_authorizes_witness :
  Server.authorize 600 (Some "61") "6869"
    (Node.server
       (@Rules.consign Fixture.lib "6869" Fixture.renter_contact 500 501
          ["a"%byte] Fixture.node0).2)
  = Ok {| Server.hash := "6869"; Server.contact := Fixture.renter_contact;
          Server.expires := 1800501 |}.
Proof.
  apply (proj1 (@replied_token_authorizes Fixture.lib [] "6869"
                  Fixture.renter_contact 500 501 ["a"%byte] Fixture.node0 600
                  ltac:(discriminate) ltac:(vm_compute; reflexivity))
           ltac:(discriminate) ["61"] _).
  vm_compute. reflexivity.
Defined.

(** A CONSIGN after [store_end] leaves the node as it was. *)
Lemma failed_handlers_change_nothing_witness :
  (@Rules.consign Fixture.lib "6869" Fixture.renter_contact 2000 2001
     ["a"%byte] Fixture.node0).2 = Fixture.node0.
Proof.
  apply (proj1 (@failed_handlers_change_nothing Fixture.lib [] "6869"
                  Fixture.renter_contact 2000 2001 ["a"%byte] Fixture.node0
                  (Error "Contract has expired"))).
  vm_compute. reflexivity.
Defined.

(** A CLAIM of the allowed renter stores, under the key of the renter, the
contract with the farmer fields of the node, signed by the farmer. *)
Lemma claim_persists_checked_contract_witness :
  exists filled,
    Contract.farmer_hd_key filled = "xpubF" /\
    Contract.renter_hd_key filled = "xpubR" /\
    entries
      (Node.contracts
         (@Rules.claim Fixture.lib [Contract.Obj Fixture.unsigned]
            Fixture.renter_contact 0 ["a"%byte] Fixture.node0).2)
      !! "6869:xpubR"
    = Some (Contract.Obj
              (@Contract.sign Fixture.lib Contract.farmer
                 (Node.privateKey Fixture.node0) filled)).
Proof.
  edestruct (@claim_persists_checked_contract Fixture.lib
               [Contract.Obj Fixture.unsigned] Fixture.renter_contact 0
               ["a"%byte] Fixture.node0)
    as (filled & (_ & _ & Hk & _) & (_ & _ & _ & Hr & _) & Hd & Hok & Hl);
    [vm_compute; reflexivity|].
  exists filled. split; [exact Hk|]. split; [exact Hr|].
  rewrite <- Hd. exact Hl.
Defined.

(** The farmer mirrors the shard to a target that answers 200. *)
Lemma mirror_acknowledged_iff_witness :
  Rules.mirror "6869" "t" Fixture.farmer_contact Fixture.renter_contact
    Fixture.uploader_ok Fixture.node0
  = Some (Reply ["ok"]).
Proof.
  apply (proj2 (proj1 (mirror_acknowledged_iff "6869" "t"
                         Fixture.farmer_contact Fixture.renter_contact
                         Fixture.uploader_ok Fixture.node0 "ok"))).
  split.
  - exists (Contract.Obj Fixture.c1). vm_compute. reflexivity.
  - exists Fixture.shard. split; [vm_compute; reflexivity|reflexivity].
Defined.

(** An offer for the shard the renter published is queued; after the
stream ended it is refused. *)
Lemma published_descriptor_takes_offers_witness :
  let published :=
    (@Node.publishShardDescriptor Fixture.lib (fun _ => "0f01")
       Fixture.new_stream (Contract.Obj Fixture.unsigned) None
       Fixture.renter_node).2 in
  @Rules.offer Fixture.lib [Contract.Obj Fixture.c1] Fixture.farmer_contact
    published
  = Rules.offer_queue "6869" Fixture.stream0 Fixture.farmer_contact
      Fixture.c1 /\
  @Rules.offer Fixture.lib [Contract.Obj Fixture.c1] Fixture.farmer_contact
    (Node.offerStream_closed "6869" published)
  = Rules.offer_fail (Error "Offers for descriptor are closed").
Proof.
  apply (@published_descriptor_takes_offers Fixture.lib (fun _ => "0f01")
           Fixture.new_stream (Contract.Obj Fixture.unsigned) None
           Fixture.renter_node [Contract.Obj Fixture.c1]
           Fixture.farmer_contact);
    vm_compute; reflexivity.
Defined.

(** The announcement for the code ["0a"] reaches the subscriber of ["0a"]
and ["0b"]. *)
Lemma capacity_topics_match_witness :
  "0c0a" ∈ Node.subscribeCapacityAnnouncement_topics ["0a"; "0b"].
Proof.
  apply (proj1 (capacity_topics_match "0a" ["0a"; "0b"] []
                  {| Node.available := 1; Node.allocated := 0 |}
                  Fixture.node0)).
  apply list_elem_of_here.
Defined.

(** Capacity that comes back does not bring the allow-list back. *)
Lemma allow_list_is_not_restored_witness :
  Node.claims
    (announcements
       [("0a", {| Node.available := 0; Node.allocated := 7 |});
        ("0a", {| Node.available := 3; Node.allocated := 4 |})]
       Fixture.node0)
  = [].
Proof.
  rewrite (proj1 (@allow_list_is_not_restored Fixture.lib
                    [("0a", {| Node.available := 0; Node.allocated := 7 |});
                     ("0a", {| Node.available := 3; Node.allocated := 4 |})]
                    Fixture.node0)).
  vm_compute. reflexivity.
Defined.

(** A farmer without capacity announces on its topic and closes its
allow-list. *)
Lemma announceCapacity_outcome_witness :
  Node.claims
    (Profiles.announceCapacity ["0a"]
       (Ok {| Node.available := 0; Node.allocated := 7 |}) Fixture.node0).2
  = [].
Proof.
  rewrite (proj2 (proj2 (proj2 (announceCapacity_outcome ["0a"]
             (Ok {| Node.available := 0; Node.allocated := 7 |})
             Fixture.node0) _ eq_refl))).
  vm_compute. reflexivity.
Defined.

(** The farmer that acquired [c3] from the renter admits its CONSIGN at
time 1500. *)
Lemma acquired_contract_admits_consign_witness :
  (@Rules.consign Fixture.lib "6869" Fixture.renter_contact 1500 1501
     ["a"%byte]
     (@Node.offerShardAllocation Fixture.lib Fixture.renter_contact
        (Ok [Contract.Obj Fixture.c3]) Fixture.node0).2).1
  = Reply ["61"].
Proof.
  etransitivity.
  - exact (@acquired_contract_admits_consign Fixture.lib
             Fixture.renter_contact [Contract.Obj Fixture.c3] Fixture.node0
             Fixture.c3
             (@Node.offerShardAllocation Fixture.lib Fixture.renter_contact
                (Ok [Contract.Obj Fixture.c3]) Fixture.node0).2
             1500 1501 ["a"%byte]
             ltac:(vm_compute; reflexivity) eq_refl).
  - vm_compute. reflexivity.
Defined.

(** The renter stores the descriptor [c3] the farmer replied with. *)
Lemma offerShardAllocation_persists_descriptor_witness :
  entries
    (Node.contracts
       (@Node.offerShardAllocation Fixture.lib Fixture.farmer_contact
          (Ok [Contract.Obj Fixture.c3]) Fixture.renter_node).2)
    !! "6869:xpubF"
  = Some (Contract.Obj Fixture.c3).
Proof.
  apply (proj2 (@offerShardAllocation_persists_descriptor Fixture.lib
                  Fixture.farmer_contact [Contract.Obj Fixture.c3]
                  Fixture.renter_node Fixture.c3
                  (@Node.offerShardAllocation Fixture.lib
                     Fixture.farmer_contact (Ok [Contract.Obj Fixture.c3])
                     Fixture.renter_node).2
                  ltac:(vm_compute; reflexivity))).
Defined.

(** Ten mebibytes and one byte: four shards, two of parity, three bytes of
padding. *)
Lemma getErasureParameters_spec_witness :
  exists p,
    Utils.getErasureParameters 16 10485761 = Some p /\
    Utils.shards p = 4 /\ Utils.parity p * 2 = 4 /\
    (10485761 + Utils.padding p) mod 4 = 0.
Proof.
  destruct (getErasureParameters_spec 16 10485761 ltac:(lia)
              ltac:(vm_compute; discriminate))
    as (p & Hp & Hs & Hpar & _ & Hpad).
  rewrite decide_False, decide_True in Hs by lia.
  destruct (Hpad ltac:(lia)) as [_ Hmod]. rewrite Hs in *.
  exists p. repeat split; assumption.
Defined.

(** At time 0 the reaper removes the contract [c1], which ends at time
1000, and its shard. *)
Lemma reapExpiredShards_outcome_witness :
  entries
    (Node.contracts
       (@Profiles.reapExpiredShards Fixture.lib (fun _ => true) 0
          Fixture.node0).2)
    !! "6869:xpubR" = None /\
  Shards.blobs
    (Node.shards
       (@Profiles.reapExpiredShards Fixture.lib (fun _ => true) 0
          Fixture.node0).2)
    !! "6869" = None.
Proof.
  destruct (@reapExpiredShards_outcome Fixture.lib (fun _ => true) 0
              Fixture.node0 ltac:(repeat split)) as (_ & Hc & Hs & _).
  split.
  - rewrite Hc. vm_compute. reflexivity.
  - apply Hs. exists "6869:xpubR", (Contract.Obj Fixture.c1).
    split; [vm_compute; reflexivity|].
    split; vm_compute; reflexivity.
Defined.

(** A read stream that emits the entry of [c1] and then ['error']: the
reaper hands the error to its callback, and the contract and its shard are
gone. *)
Lemma reapExpiredShards_faults_witness :
  (@Profiles.reapExpiredShards Fixture.lib (fun _ => true) 0
     Fixture.node_broken_scan).1
    = Some (UpstreamError "EIO") /\
  entries
    (Node.contracts
       (@Profiles.reapExpiredShards Fixture.lib (fun _ => true) 0
          Fixture.node_broken_scan).2)
    !! "6869:xpubR" = None /\
  Shards.blobs
    (Node.shards
       (@Profiles.reapExpiredShards Fixture.lib (fun _ => true) 0
          Fixture.node_broken_scan).2)
    !! "6869" = None.
Proof.
  pose proof (proj1 (@reapExpiredShards_faults Fixture.lib (fun _ => true) 0
                       Fixture.node_broken_scan) "EIO" eq_refl) as Hfault.
  cbv zeta in Hfault.
  destruct Hfault as (Herr & _ & _ & Hdel & _).
  split; [exact Herr|].
  apply (Hdel eq_refl eq_refl "6869:xpubR" (Contract.Obj Fixture.c1)).
  - vm_compute. reflexivity.
  - reflexivity.
  - vm_compute. reflexivity.
Defined.
